(** * Age-conditioned resampling passes of the dataMining repository

    A shallow embedding of the four repair scripts

    - [correct_social_platforms.py]       (platform pass, [csv] + [random]),
    - [fix_job_types_by_age.py]           (job-type pass, [pandas] + [numpy]),
    - [fix_teen_data.py]                  (teen pass, [pandas] + [numpy]),
    - [recalibrate_productivity_scores.py] (productivity pass, [csv] + [random]),

    together with the properties their specification states about them.

    Modelling conventions.
    - A Python [float] is modelled by the rational number it denotes
      (type [Q]); [nan] and the infinities are not part of the model, and
      float rounding is idealised away.  All bucket bounds, weights and
      ranges of the scripts are decimal literals, so they are exact in [Q].
    - A [csv.DictReader] row is a [gmap string string]; a pandas
      [DataFrame] is a [gmap] from column names to columns (lists of
      cells).
    - The pseudo-random generator is library code: it is an abstract state
      with the two primitives the samplers are built on, packaged with
      their range contracts in the class [PRNG].
    - Raising an exception is modelled by [None]. *)

From Stdlib Require Import QArith Qabs Lqa ZArith Lia Ascii String.
From stdpp Require Import gmap strings list fin_maps pretty.

(** ** Numbers *)

Definition Qltb (x y : Q) : bool := negb (Qle_bool y x).

Lemma Qltb_true (x y : Q) : Qltb x y = true ↔ (x < y)%Q.
Proof.
  unfold Qltb. rewrite negb_true_iff. split.
  - intros H. apply Qnot_le_lt. intros Hle.
    apply Qle_bool_iff in Hle. congruence.
  - intros H. destruct (Qle_bool y x) eqn:E; [|done].
    apply Qle_bool_iff in E. lra.
Qed.

Lemma Qltb_false (x y : Q) : Qltb x y = false ↔ (y <= x)%Q.
Proof.
  unfold Qltb. rewrite negb_false_iff. apply Qle_bool_iff.
Qed.

Lemma Qle_bool_false (x y : Q) : Qle_bool x y = false ↔ (y < x)%Q.
Proof.
  split.
  - intros H. apply Qnot_le_lt. intros Hle.
    apply Qle_bool_iff in Hle. congruence.
  - intros H. destruct (Qle_bool x y) eqn:E; [|done].
    apply Qle_bool_iff in E. lra.
Qed.

(** [int(x)] on a float: truncation toward zero. *)
Definition py_int (q : Q) : Z := Z.quot (Qnum q) (Zpos (Qden q)).

(** The builtins [max] and [min] on two floats. *)
Definition py_max (a b : Q) : Q := if Qltb a b then b else a.
Definition py_min (a b : Q) : Q := if Qltb b a then b else a.

(** ** The pseudo-random generator

    [random_sample] is [random.random()] / [RandomState.random_sample()],
    a float in the half-open unit interval; [randint n] is
    [RandomState.randint(0, n)].  Both return the advanced generator. *)

Class PRNG (gen : Type) := {
  random_sample : gen → Q * gen;
  random_sample_range : ∀ g, (0 <= (random_sample g).1 < 1)%Q;
  randint : Z → gen → Z * gen;
  randint_range : ∀ n g, (0 < n)%Z → (0 <= (randint n g).1 < n)%Z
}.

(** A concrete generator: a 64-bit linear congruential generator whose
    state is reduced to 53 bits for a float and modulo [n] for an
    integer. *)
Module LCG.

Definition next (s : Z) : Z :=
  ((s * 6364136223846793005 + 1442695040888963407) mod 2 ^ 64)%Z.

Definition sample (s : Z) : Q * Z :=
  (Qmake (s mod 2 ^ 53) (2 ^ 53), next s).

Definition below (n s : Z) : Z * Z := ((s mod n)%Z, next s).

Lemma sample_range (s : Z) : (0 <= (sample s).1 < 1)%Q.
Proof.
  unfold sample; simpl.
  pose proof (Z.mod_pos_bound s (2 ^ 53) eq_refl) as [H0 H1].
  unfold Qle, Qlt; simpl. split; lia.
Qed.

Lemma below_range (n s : Z) : (0 < n)%Z → (0 <= (below n s).1 < n)%Z.
Proof. intros Hn. simpl. by apply Z.mod_pos_bound. Qed.

#[global] Instance lcg : PRNG Z :=
  {| random_sample := sample; random_sample_range := sample_range;
     randint := below; randint_range := below_range |}.

End LCG.

(** ** Binary search ([bisect.bisect_right], [ndarray.searchsorted] with
    [side='right'])

    <<
    while lo < hi:
        mid = (lo + hi) // 2
        if x < a[mid]: hi = mid
        else: lo = mid + 1
    return lo
    >>
    The loop runs at most [hi - lo] times, which is the fuel given to
    [bisect_loop]. *)

Fixpoint bisect_loop (fuel : nat) (a : list Q) (x : Q) (lo hi : nat) : nat :=
  match fuel with
  | O => lo
  | S fuel' =>
      if lo <? hi then
        let mid := (lo + hi) / 2 in
        if Qltb x (nth mid a 0%Q)
        then bisect_loop fuel' a x lo mid
        else bisect_loop fuel' a x (mid + 1) hi
      else lo
  end.

Definition bisect_right (a : list Q) (x : Q) (lo hi : nat) : nat :=
  bisect_loop (hi - lo) a x lo hi.

Lemma bisect_loop_spec (fuel : nat) (a : list Q) (x : Q) :
  ∀ lo hi, hi - lo ≤ fuel → lo ≤ hi →
    lo ≤ bisect_loop fuel a x lo hi ≤ hi ∧
    (bisect_loop fuel a x lo hi = lo ∨
     (nth (bisect_loop fuel a x lo hi - 1) a 0 <= x)%Q).
Proof.
  induction fuel as [|fuel IH]; intros lo hi Hf Hle; cbn [bisect_loop].
  - split; [lia | by left].
  - destruct (lo <? hi) eqn:Hlt; [|split; [lia | by left]].
    apply Nat.ltb_lt in Hlt.
    assert (Hmid : lo ≤ (lo + hi) / 2 < hi).
    { split; [apply Nat.div_le_lower_bound | apply Nat.Div0.div_lt_upper_bound]; lia. }
    set (mid := (lo + hi) / 2) in *.
    destruct (Qltb x (nth mid a 0%Q)) eqn:Hx.
    + destruct (IH lo mid) as [Hr Hl]; [lia | lia |].
      split; [lia | done].
    + destruct (IH (mid + 1) hi) as [Hr Hl]; [lia | lia |].
      split; [lia |]. right. destruct Hl as [-> | Hl]; [|done].
      replace (mid + 1 - 1) with mid by lia.
      by apply Qltb_false.
Qed.


Lemma bisect_right_below (a : list Q) (x : Q) (hi : nat) :
  0 < hi → (x < nth (hi - 1) a 0)%Q → bisect_right a x 0 hi < hi.
Proof.
  intros Hhi Hx.
  destruct (bisect_loop_spec (hi - 0) a x 0 hi) as [[_ Hr] Hl]; [lia | lia |].
  fold (bisect_right a x 0 hi) in *.
  destruct (decide (bisect_right a x 0 hi = hi)) as [E|]; [|lia].
  destruct Hl as [Hl | Hl]; [lia |]. rewrite E in Hl. lra.
Qed.

(** ** Running sums ([itertools.accumulate], [ndarray.cumsum]) *)

Fixpoint accumulate_from (total : Q) (l : list Q) : list Q :=
  match l with
  | [] => []
  | x :: t => (total + x)%Q :: accumulate_from (total + x)%Q t
  end.

Definition accumulate (l : list Q) : list Q :=
  match l with
  | [] => []
  | x :: t => x :: accumulate_from x t
  end.

Definition Qsum (l : list Q) : Q := foldr Qplus 0%Q l.

Lemma length_accumulate_from (total : Q) (l : list Q) :
  length (accumulate_from total l) = length l.
Proof. revert total; induction l as [|x l IH]; intros total; simpl; [done | by rewrite IH]. Qed.

Lemma length_accumulate (l : list Q) : length (accumulate l) = length l.
Proof. destruct l; simpl; [done | by rewrite length_accumulate_from]. Qed.

Lemma last_accumulate_from (total : Q) (l : list Q) :
  (default total (last (accumulate_from total l)) == total + Qsum l)%Q.
Proof.
  revert total; induction l as [|x l IH]; intros total; simpl; [lra|].
  specialize (IH (total + x)%Q).
  destruct (accumulate_from (total + x) l) as [|c cs] eqn:E; simpl in *.
  - destruct l; [simpl; lra | done].
  - rewrite last_cons in IH. rewrite last_cons.
    destruct (last cs) as [z|]; simpl in *; lra.
Qed.

Lemma last_accumulate (l : list Q) (s : Q) :
  last (accumulate l) = Some s → (s == Qsum l)%Q.
Proof.
  destruct l as [|x l]; simpl; [done|]. intros Hl.
  pose proof (last_accumulate_from x l) as H.
  rewrite last_cons in Hl.
  destruct (last (accumulate_from x l)); simplify_eq; simpl in *; lra.
Qed.

Lemma last_is_Some {A} (l : list A) : 0 < length l → is_Some (last l).
Proof.
  destruct l as [|x l] using rev_ind; simpl; [lia|].
  intros _. rewrite last_snoc. by eexists.
Qed.

Lemma last_nth (l : list Q) (s : Q) :
  last l = Some s → nth (length l - 1) l 0%Q = s.
Proof.
  destruct l as [|x l _] using rev_ind; [done|].
  rewrite last_snoc, length_app; simpl. intros [= ->].
  replace (length l + 1 - 1) with (length l) by lia.
  by rewrite nth_middle.
Qed.

(** ** The weighted and uniform samplers *)

(** [atol = sqrt(finfo(float64).eps)], that is two to the power -26. *)
Definition np_atol : Q := Qmake 1 (2 ^ 26).

(** The argument checks of [RandomState.choice(a, p=p)]. *)
Definition np_valid {A} (a : list A) (p : list Q) : bool :=
  negb (length a =? 0) && (length p =? length a)
  && negb (existsb (λ x, Qltb x 0) p)
  && negb (Qltb np_atol (Qabs (Qsum p - 1))).

Section Samplers.
Context {gen : Type} `{!PRNG gen}.

(** [random.choices(population, weights=weights, k=1)[0]]:
    <<
    cum_weights = list(accumulate(weights))
    if len(cum_weights) != n: raise ValueError
    total = cum_weights[-1] + 0.0
    if total <= 0.0: raise ValueError
    hi = n - 1
    return population[bisect(cum_weights, random() * total, 0, hi)]
    >> *)
Definition choices {A} (population : list A) (weights : list Q) (g : gen)
    : option (A * gen) :=
  let n := length population in
  let cum_weights := accumulate weights in
  if negb (length cum_weights =? n) then None else
  total ← last cum_weights;
  if Qle_bool total 0 then None else
  let hi := n - 1 in
  let '(u, g') := random_sample g in
  x ← population !! bisect_right cum_weights (u * total) 0 hi;
  Some (x, g').

(** [random.uniform(a, b)] and [numpy.random.uniform(a, b)]:
    [a + (b - a) * random()]. *)
Definition uniform (a b : Q) (g : gen) : Q * gen :=
  let '(u, g') := random_sample g in ((a + (b - a) * u)%Q, g').

(** [numpy.random.choice(a, p=p)]:
    <<
    cdf = p.cumsum(); cdf /= cdf[-1]
    uniform_samples = self.random_sample(shape)
    idx = cdf.searchsorted(uniform_samples, side='right')
    return a[idx]
    >> *)
Definition np_choice {A} (a : list A) (p : list Q) (g : gen)
    : option (A * gen) :=
  if negb (np_valid a p) then None else
  let cdf0 := accumulate p in
  total ← last cdf0;
  let cdf := map (λ c, c / total)%Q cdf0 in
  let '(u, g') := random_sample g in
  x ← a !! bisect_right cdf u 0 (length cdf);
  Some (x, g').

(** [size] successive draws of [randint(0, n)]. *)
Fixpoint randint_n (n : Z) (size : nat) (g : gen) : list Z * gen :=
  match size with
  | O => ([], g)
  | S size' =>
      let '(i, g1) := randint n g in
      let '(rest, g2) := randint_n n size' g1 in
      (i :: rest, g2)
  end.

(** [numpy.random.choice(a, size=size, replace=True)] without weights:
    <<
    idx = self.randint(0, pop_size, size=shape)
    return a[idx]
    >> *)
Definition np_choice_size {A} (a : list A) (size : nat) (g : gen)
    : option (list A * gen) :=
  if (length a =? 0) && negb (size =? 0) then None else
  let '(idx, g') := randint_n (Z.of_nat (length a)) size g in
  xs ← mapM (λ i, a !! Z.to_nat i) idx;
  Some (xs, g').

Lemma choices_elem {A} (population : list A) weights g x g' :
  choices population weights g = Some (x, g') →
  x ∈ population ∧ g' = (random_sample g).2.
Proof.
  unfold choices. intros H.
  destruct (negb _); [done|].
  destruct (last _) as [total|]; [simpl in H | done].
  destruct (Qle_bool total 0); [done|].
  destruct (random_sample g) as [u g1]; simpl in *.
  destruct (population !! _) as [y|] eqn:E; simplify_eq/=.
  split; [by eapply list_elem_of_lookup_2 | done].
Qed.


Lemma uniform_range (a b : Q) (g : gen) :
  (a <= b)%Q → (a <= (uniform a b g).1 <= b)%Q.
Proof.
  intros Hab. unfold uniform.
  pose proof (random_sample_range g) as [H0 H1].
  destruct (random_sample g) as [u g']; simpl in *. split; nra.
Qed.

Lemma uniform_gen (a b : Q) (g : gen) :
  (uniform a b g).2 = (random_sample g).2.
Proof. unfold uniform. by destruct (random_sample g). Qed.

Lemma np_choice_elem {A} (a : list A) p g x g' :
  np_choice a p g = Some (x, g') →
  x ∈ a ∧ g' = (random_sample g).2.
Proof.
  unfold np_choice. intros H.
  destruct (negb _); [done|].
  destruct (last _) as [total|]; [simpl in H | done].
  destruct (random_sample g) as [u g1]; simpl in *.
  destruct (a !! _) as [y|] eqn:E; simplify_eq/=.
  split; [by eapply list_elem_of_lookup_2 | done].
Qed.

Lemma np_choice_Some {A} (a : list A) p g :
  np_valid a p = true → is_Some (np_choice a p g).
Proof.
  intros Hv. unfold np_choice. rewrite Hv; simpl.
  unfold np_valid in Hv.
  repeat (apply andb_prop in Hv as [Hv ?]).
  apply negb_true_iff, Nat.eqb_neq in Hv.
  match goal with H : (_ =? _) = true |- _ => apply Nat.eqb_eq in H; rename H into Hlen end.
  match goal with H : negb (Qltb _ _) = true |- _ =>
    apply negb_true_iff, Qltb_false in H; rename H into Hsum end.
  destruct (last_is_Some (accumulate p)) as [total Ht].
  { rewrite length_accumulate. lia. }
  rewrite Ht; simpl.
  pose proof (last_accumulate _ _ Ht) as Htot.
  assert (Hpos : (0 < total)%Q).
  { unfold np_atol in Hsum.
    apply Qabs_Qle_condition in Hsum as [Hlo _].
    rewrite Htot. 
    assert ((- (1 # 2 ^ 26) == - (1 # 67108864)))%Q by reflexivity.
    lra. }
  pose proof (random_sample_range g) as [Hu0 Hu1].
  destruct (random_sample g) as [u g1]; simpl in *.
  set (cdf := map (λ c, c / total)%Q (accumulate p)).
  assert (Hcl : length cdf = length a).
  { unfold cdf. by rewrite length_map, length_accumulate. }
  assert (Hlast : (nth (length cdf - 1) cdf 0 == 1)%Q).
  { rewrite (nth_indep cdf 0%Q ((λ c, c / total)%Q 0%Q)) by lia.
    unfold cdf.
    rewrite (map_nth (λ c, (c / total)%Q) (accumulate p) 0%Q), length_map.
    rewrite (last_nth _ _ Ht). field. lra. }
  pose proof (bisect_right_below cdf u (length cdf) ltac:(lia) ltac:(lra)) as Hb.
  destruct (lookup_lt_is_Some_2 a (bisect_right cdf u 0 (length cdf))
              ltac:(lia)) as [x Hx].
  rewrite Hx. by eexists.
Qed.

End Samplers.

(** ** Sequential loops over records

    [for_each f l g] runs the loop body [f] over the records of [l] in
    order, threading the generator and collecting the results; an
    exception in the body aborts the loop. *)

Section ForEach.
Context {gen A B : Type} (f : A → gen → option (B * gen)).

Fixpoint for_each (l : list A) (g : gen) : option (list B * gen) :=
  match l with
  | [] => Some ([], g)
  | a :: l' =>
      '(b, g1) ← f a g;
      '(bs, g2) ← for_each l' g1;
      Some (b :: bs, g2)
  end.

Lemma for_each_cons_inv a l g out g' :
  for_each (a :: l) g = Some (out, g') →
  ∃ b g1 bs, f a g = Some (b, g1) ∧ for_each l g1 = Some (bs, g') ∧
             out = b :: bs.
Proof.
  simpl. intros H.
  destruct (f a g) as [[b g1]|] eqn:Hf; [simpl in H | done].
  destruct (for_each l g1) as [[bs g2]|] eqn:Hl; simplify_eq/=.
  by exists b, g1, bs.
Qed.

Lemma for_each_length l g out g' :
  for_each l g = Some (out, g') → length out = length l.
Proof.
  revert g out; induction l as [|a l IH]; intros g out H.
  - by simplify_eq/=.
  - apply for_each_cons_inv in H as (b & g1 & bs & _ & H & ->).
    simpl. f_equal. eauto.
Qed.

Lemma for_each_lookup l g out g' i a :
  for_each l g = Some (out, g') → l !! i = Some a →
  ∃ b gi gi', out !! i = Some b ∧ f a gi = Some (b, gi').
Proof.
  revert g out i; induction l as [|a0 l IH]; intros g out i H Hi; [done|].
  apply for_each_cons_inv in H as (b & g1 & bs & Hf & H & ->).
  destruct i as [|i]; simplify_eq/=; eauto.
Qed.

Lemma for_each_lookup_inv l g out g' i b :
  for_each l g = Some (out, g') → out !! i = Some b →
  ∃ a gi gi', l !! i = Some a ∧ f a gi = Some (b, gi').
Proof.
  intros H Hb.
  destruct (l !! i) as [a|] eqn:Ha.
  - destruct (for_each_lookup _ _ _ _ _ _ H Ha) as (b' & gi & gi' & Hb' & Hf).
    simplify_eq. eauto.
  - apply lookup_ge_None in Ha. apply lookup_lt_Some in Hb.
    apply for_each_length in H. lia.
Qed.

Lemma for_each_app l1 l2 g :
  for_each (l1 ++ l2) g =
    '(o1, g1) ← for_each l1 g;
    '(o2, g2) ← for_each l2 g1;
    Some (o1 ++ o2, g2).
Proof.
  revert g; induction l1 as [|a l1 IH]; intros g; simpl.
  - by destruct (for_each l2 g) as [[??]|].
  - destruct (f a g) as [[b g1]|]; [simpl | done].
    rewrite IH. destruct (for_each l1 g1) as [[o1 g2]|]; [simpl | done].
    by destruct (for_each l2 g2) as [[??]|].
Qed.

Lemma for_each_Some l g :
  (∀ a g, a ∈ l → is_Some (f a g)) → is_Some (for_each l g).
Proof.
  revert g; induction l as [|a l IH]; intros g Hf; simpl; [by eexists|].
  destruct (Hf a g) as [[b g1] ->]; [by left | simpl].
  destruct (IH g1) as [[bs g2] ->]; [|by eexists].
  intros a' g0 Ha'. apply Hf. by right.
Qed.
End ForEach.

(** ** DataFrames

    A cell is a float, a string, or the missing value [NaN]; a
    [DataFrame] maps each column name to its column. *)

Inductive value :=
  | VNum (q : Q)
  | VStr (s : string)
  | VNaN.

Abbreviation DataFrame := (gmap string (list value)).

(** [pandas.isna] on a scalar. *)
Definition isna (v : value) : bool :=
  match v with VNaN => true | _ => false end.

(** [v == ''] on a cell. *)
Definition is_empty_str (v : value) : bool :=
  match v with VStr s => bool_decide (s = "") | _ => false end.

(** [Series.isin(values)] for a list of floats: numeric equality. *)
Definition isin (values : list Q) (v : value) : bool :=
  match v with
  | VNum q => existsb (Qeq_bool q) values
  | _ => false
  end.

(** * The job-type pass ([fix_job_types_by_age.py]) *)

Module JobTypes.

Definition impossible_jobs : list string := ["Finance"; "Health"; "Education"].

(** The obsolete labels of [map_job_type_to_standard]. *)
Definition obsolete_jobs : list string :=
  ["Healthcare"; "Marketing"; "Manufacturing"; "Freelancer"].

Definition map_job_type_to_standard (job_type : string) : string :=
  if bool_decide (job_type ∈ obsolete_jobs) then "Other" else job_type.

Section Pass.
Context {gen : Type} `{!PRNG gen}.
(** [int(s)] on a [str] cell ([None]: [ValueError]). *)
Variable int_of_str : string → option Z.

(** [int(age)] on a cell that is not missing. *)
Definition int_of_value (v : value) : option Z :=
  match v with
  | VNum q => Some (py_int q)
  | VStr s => int_of_str s
  | VNaN => None
  end.

Definition assign_realistic_job (age : value) (g : gen)
    : option (string * gen) :=
  if isna age then Some ("Student", g) else
  age ← int_of_value age;
  if bool_decide (age ∈ [18; 19]%Z) then
    np_choice ["Student"; "Unemployed"; "IT"; "Other"]
              [0.85; 0.10; 0.03; 0.02]%Q g
  else if bool_decide (age ∈ [20; 21; 22]%Z) then
    np_choice ["Student"; "Unemployed"; "IT"; "Other"]
              [0.65; 0.15; 0.15; 0.05]%Q g
  else if bool_decide (age ∈ [23; 24]%Z) then
    np_choice ["Student"; "IT"; "Finance"; "Health"; "Education";
               "Unemployed"; "Other"]
              [0.55; 0.15; 0.08; 0.05; 0.05; 0.10; 0.02]%Q g
  else if (25 <=? age)%Z && (age <=? 29)%Z then
    np_choice ["IT"; "Finance"; "Health"; "Education"; "Student";
               "Unemployed"; "Other"]
              [0.25; 0.20; 0.15; 0.15; 0.10; 0.10; 0.05]%Q g
  else if (30 <=? age)%Z && (age <=? 39)%Z then
    np_choice ["Finance"; "IT"; "Health"; "Education"; "Unemployed";
               "Student"; "Other"]
              [0.25; 0.20; 0.18; 0.15; 0.10; 0.05; 0.07]%Q g
  else if (40 <=? age)%Z && (age <=? 49)%Z then
    np_choice ["Finance"; "Health"; "IT"; "Education"; "Unemployed";
               "Student"; "Other"]
              [0.28; 0.20; 0.18; 0.18; 0.10; 0.03; 0.03]%Q g
  else if (50 <=? age)%Z && (age <=? 59)%Z then
    np_choice ["Finance"; "Health"; "Education"; "IT"; "Unemployed";
               "Student"; "Other"]
              [0.25; 0.22; 0.20; 0.15; 0.12; 0.03; 0.03]%Q g
  else if (60 <=? age)%Z && (age <=? 65)%Z then
    np_choice ["Unemployed"; "Finance"; "Health"; "Education"; "IT";
               "Student"]
              [0.40; 0.20; 0.15; 0.15; 0.08; 0.02]%Q g
  else
    np_choice ["Unemployed"; "Finance"; "Health"; "Education"]
              [0.60; 0.15; 0.15; 0.10]%Q g.

(** The body of [df['age'].apply(assign_realistic_job)]: one cell of the
    new column. *)
Definition assign_cell (age : value) (g : gen) : option (value * gen) :=
  '(job, g') ← assign_realistic_job age g; Some (VStr job, g').

(** [fix_job_types], from the frame read to the frame written:
    <<
    problematic_before = df[df['age'].isin(..) & df['job_type'].isin(..)]
    df['job_type'] = df['age'].apply(assign_realistic_job)
    >>
    Both columns are read, so a frame without one of them raises
    [KeyError]. *)
Definition fix_job_types (df : DataFrame) (g : gen)
    : option (DataFrame * gen) :=
  ages ← df !! "age";
  _ ← df !! "job_type";
  '(jobs, g') ← for_each assign_cell ages g;
  Some (<["job_type" := jobs]> df, g').

End Pass.
End JobTypes.

(** ** CSV rows

    A row yielded by [csv.DictReader] maps column names to the text of
    the cells. *)

Abbreviation Row := (gmap string string).

(** [row.get(key, '')]. *)
Definition row_get (row : Row) (key : string) : string :=
  default "" (row !! key).

(** Truth value of a [str]: non-empty. *)
Definition truthy (s : string) : bool := negb (bool_decide (s = "")).

(** * The platform pass ([correct_social_platforms.py]) *)

Module Platforms.

Record platform_spec := {
  platforms : list string;
  probabilities : list Q
}.

Definition AGE_PLATFORM_PROBABILITIES : gmap string platform_spec :=
  list_to_map [
    ("teen", {| platforms := ["TikTok"; "Instagram"; "Twitter"; "Facebook"];
                probabilities := [0.45; 0.35; 0.15; 0.05]%Q |});
    ("young_adult",
             {| platforms := ["Instagram"; "TikTok"; "Twitter"; "Facebook"];
                probabilities := [0.40; 0.30; 0.20; 0.10]%Q |});
    ("adult", {| platforms := ["Facebook"; "Instagram"; "Twitter"; "Telegram"];
                 probabilities := [0.35; 0.30; 0.20; 0.15]%Q |});
    ("middle_aged",
             {| platforms := ["Facebook"; "Instagram"; "Twitter"; "Telegram"];
                probabilities := [0.50; 0.25; 0.15; 0.10]%Q |});
    ("mature_adult",
             {| platforms := ["Facebook"; "Instagram"; "Twitter"; "Telegram"];
                probabilities := [0.60; 0.20; 0.15; 0.05]%Q |});
    ("senior", {| platforms := ["Facebook"; "Instagram"; "Twitter"; "Telegram"];
                  probabilities := [0.70; 0.15; 0.10; 0.05]%Q |})
  ].

(** The chain of comparisons of [get_age_group], on the parsed age. *)
Definition age_group_of (age : Q) : option string :=
  if Qle_bool 18 age && Qltb age 20 then Some "teen"
  else if Qle_bool 20 age && Qltb age 30 then Some "young_adult"
  else if Qle_bool 30 age && Qltb age 40 then Some "adult"
  else if Qle_bool 40 age && Qltb age 50 then Some "middle_aged"
  else if Qle_bool 50 age && Qltb age 60 then Some "mature_adult"
  else if Qle_bool 60 age then Some "senior"
  else None.

Section Pass.
Context {gen : Type} `{!PRNG gen}.
(** [float(s)] on the text of a cell ([None]: [ValueError]). *)
Variable float_of_str : string → option Q.

(** [get_age_group]: the outer [option] is the exception of [float], the
    inner one the Python [None]. *)
Definition get_age_group (age : string) : option (option string) :=
  if bool_decide (age = "") then Some None else
  age ← float_of_str age;
  Some (age_group_of age).

Definition assign_platform_by_age (age : string) (g : gen)
    : option (string * gen) :=
  if bool_decide (age = "") then Some ("", g) else
  age_group ← get_age_group age;
  match age_group with
  | None => Some ("", g)
  | Some age_group =>
      spec ← AGE_PLATFORM_PROBABILITIES !! age_group;
      choices (platforms spec) (probabilities spec) g
  end.

(** The body of the loop of [correct_csv_platforms]:
    <<
    age = row.get('age', '')
    if age:
        new_platform = assign_platform_by_age(age)
        row['social_platform_preference'] = new_platform
    writer.writerow(row)
    >> *)
Definition correct_row (row : Row) (g : gen) : option (Row * gen) :=
  let age := row_get row "age" in
  if truthy age then
    '(new_platform, g') ← assign_platform_by_age age g;
    Some (<["social_platform_preference" := new_platform]> row, g')
  else Some (row, g).

Definition correct_csv_platforms (rows : list Row) (g : gen)
    : option (list Row * gen) :=
  for_each correct_row rows g.

End Pass.
End Platforms.

(** * The productivity pass ([recalibrate_productivity_scores.py]) *)

Module Productivity.

Record gap_config := {
  range : Z * Z;
  gap_min : Q;
  gap_max : Q;
  description : string
}.

(** The table is iterated in insertion order by [get_age_group], hence an
    association list. *)
Definition AGE_GROUP_GAPS : list (string * gap_config) := [
  ("teen", {| range := (18, 19)%Z; gap_min := 1.5; gap_max := 2.5;
              description := "Teens (18-19)" |});
  ("young_adult", {| range := (20, 29)%Z; gap_min := 0.5; gap_max := 1.5;
                     description := "Young Adults (20-29)" |});
  ("adult", {| range := (30, 39)%Z; gap_min := 0.0; gap_max := 0.5;
               description := "Adults (30-39)" |});
  ("middle_aged", {| range := (40, 55)%Z; gap_min := 0.0; gap_max := 0.8;
                     description := "Middle-Aged (40-55)" |});
  ("senior", {| range := (56, 65)%Z; gap_min := -0.5; gap_max := 1.0;
                description := "Seniors (56-65)" |})
]%Q.

(** [min_age <= age <= max_age] for one entry of the table. *)
Definition in_range (info : gap_config) (age : Q) : bool :=
  Qle_bool (inject_Z (range info).1) age
  && Qle_bool age (inject_Z (range info).2).

(** The loop of [get_age_group] over [AGE_GROUP_GAPS.items()]. *)
Definition age_group_of (age : Q) : option string :=
  fst <$> List.find (λ kv, in_range kv.2 age) AGE_GROUP_GAPS.

(** [AGE_GROUP_GAPS[age_group]]. *)
Definition gap_config_of (age_group : string) : option gap_config :=
  snd <$> List.find (λ kv, bool_decide (kv.1 = age_group)) AGE_GROUP_GAPS.

(** [sum(scores) / len(scores)]. *)
Definition mean (scores : list Q) : Q :=
  (foldl Qplus 0 scores / inject_Z (Z.of_nat (length scores)))%Q.

Section Pass.
Context {gen : Type} `{!PRNG gen}.
(** [float(s)] on the text of a cell ([None]: [ValueError]) and
    [str(x)] on a float. *)
Variable float_of_str : string → option Q.
Variable str_of_float : Q → string.

Definition get_age_group (age : string) : option (option string) :=
  if bool_decide (age = "") then Some None else
  age ← float_of_str age;
  Some (age_group_of age).

(** The body of the loop of [calculate_age_group_means]; the state is the
    [defaultdict(list)] of scores per age group. *)
Definition collect_score (row : Row) (age_group_scores : gmap string (list Q))
    : option (gmap string (list Q)) :=
  let age := row_get row "age" in
  let actual := row_get row "actual_productivity_score" in
  if truthy age && truthy actual then
    age_group ← get_age_group age;
    match age_group with
    | Some age_group =>
        if truthy age_group then
          actual ← float_of_str actual;
          Some (<[age_group :=
                    default [] (age_group_scores !! age_group) ++ [actual]]>
                  age_group_scores)
        else Some age_group_scores
    | None => Some age_group_scores
    end
  else Some age_group_scores.

Fixpoint collect_scores (rows : list Row) (acc : gmap string (list Q))
    : option (gmap string (list Q)) :=
  match rows with
  | [] => Some acc
  | row :: rows' => acc' ← collect_score row acc; collect_scores rows' acc'
  end.

Definition calculate_age_group_means (rows : list Row)
    : option (gmap string Q) :=
  match collect_scores rows ∅ with
  | Some age_group_scores =>
      Some (omap (λ scores : list Q,
                    match scores with [] => None | _ => Some (mean scores) end)
              age_group_scores)
  | None => None
  end.

(** The clamped score of one record: [max(0.0, min(10.0, actual + gap))]. *)
Definition new_perceived (actual gap : Q) : Q :=
  py_max 0 (py_min 10 (actual + gap)%Q).

(** The body of the main loop of [recalibrate_productivity_scores].  The
    loop state is the generator together with [gaps_by_age_group], the
    realised gaps the function returns for verification. *)
Definition recalibrate_row (age_group_means : gmap string Q) (row : Row)
    (st : gmap string (list Q) * gen)
    : option (Row * (gmap string (list Q) * gen)) :=
  let '(gaps_by_age_group, g) := st in
  let age := row_get row "age" in
  let actual := row_get row "actual_productivity_score" in
  if negb (truthy age) then Some (row, st) else
  age_group ← get_age_group age;
  match age_group with
  | None => Some (row, st)
  | Some age_group =>
      imputed ←
        (if negb (truthy actual) then
           Some (match age_group_means !! age_group with
                 | Some m =>
                     Some (m, <["actual_productivity_score" := str_of_float m]> row)
                 | None => None
                 end)
         else
           actual ← float_of_str actual; Some (Some (actual, row)));
      match imputed with
      | None => Some (row, st)
      | Some (actual, row) =>
          gap_config ← gap_config_of age_group;
          let '(gap, g') := uniform (gap_min gap_config) (gap_max gap_config) g in
          let new_perceived := new_perceived actual gap in
          let actual_gap := (new_perceived - actual)%Q in
          Some (<["perceived_productivity_score" := str_of_float new_perceived]> row,
                (<[age_group :=
                     default [] (gaps_by_age_group !! age_group) ++ [actual_gap]]>
                   gaps_by_age_group, g'))
      end
  end.

(** [recalibrate_productivity_scores]: the rows written and the returned
    [gaps_by_age_group]. *)
Definition recalibrate_productivity_scores (rows : list Row) (g : gen)
    : option (list Row * gmap string (list Q) * gen) :=
  age_group_means ← calculate_age_group_means rows;
  '(out, (gaps, g')) ← for_each (recalibrate_row age_group_means) rows (∅, g);
  Some (out, gaps, g').

End Pass.
End Productivity.

(** * The teen pass ([fix_teen_data.py]) *)

(** A loop whose body updates a state and may raise. *)
Fixpoint for_state {S A : Type} (body : A → S → option S) (l : list A) (s : S)
    : option S :=
  match l with
  | [] => Some s
  | a :: l' => s' ← body a s; for_state body l' s'
  end.

(** The row labels selected by a boolean mask ([df[mask].index]). *)
Definition index_where (mask : list bool) : list nat :=
  filter (λ i, mask !! i = Some true) (seq 0 (length mask)).

(** [df.loc[mask, col] = new]: the selected cells take the new values in
    order, the others keep theirs. *)
Fixpoint assign_masked (mask : list bool) (col new : list value) : list value :=
  match mask, col with
  | true :: mask', x :: col' =>
      match new with
      | v :: new' => v :: assign_masked mask' col' new'
      | [] => x :: col'
      end
  | false :: mask', x :: col' => x :: assign_masked mask' col' new
  | _, _ => col
  end.

(** [mask.sum()]: the number of selected rows. *)
Fixpoint mask_sum (mask : list bool) : nat :=
  match mask with
  | [] => 0
  | b :: mask' => (if b then 1 else 0) + mask_sum mask'
  end.

(** The number of rows of a frame that has an [age] column. *)
Definition nrows (df : DataFrame) : nat := length (default [] (df !! "age")).

(** [df.loc[idx, col]] ([None]: [KeyError]). *)
Definition get_cell (df : DataFrame) (col : string) (idx : nat) : option value :=
  c ← df !! col; c !! idx.

(** The column [col], or the all-missing column [.loc] creates when the
    frame has none of that name. *)
Definition column_or_nan (df : DataFrame) (col : string) : list value :=
  default (replicate (nrows df) VNaN) (df !! col).

(** [df.loc[idx, col] = v]. *)
Definition set_cell (df : DataFrame) (col : string) (idx : nat) (v : value)
    : DataFrame :=
  <[col := <[idx := v]> (column_or_nan df col)]> df.

(** The invariant of a frame: every column has one cell per row. *)
Definition frame_ok (df : DataFrame) : Prop :=
  ∀ col c, df !! col = Some c → length c = nrows df.

Definition frame_okb (df : DataFrame) : bool :=
  forallb (λ kv : string * list value, length kv.2 =? nrows df) (map_to_list df).

Module Teen.

Record platform_spec := {
  platforms : list string;
  probabilities : list Q
}.

Definition AGE_PLATFORM_PROBABILITIES : gmap string platform_spec :=
  list_to_map [
    ("early_teen",
       {| platforms := ["TikTok"; "Instagram"; "Snapchat"; "Twitter"; "Facebook"];
          probabilities := [0.65; 0.20; 0.10; 0.03; 0.02]%Q |});
    ("high_school",
       {| platforms := ["Instagram"; "TikTok"; "Snapchat"; "Twitter"; "Facebook"];
          probabilities := [0.45; 0.35; 0.12; 0.05; 0.03]%Q |});
    ("college_freshman",
       {| platforms := ["Instagram"; "TikTok"; "Twitter"; "Snapchat"; "Facebook"];
          probabilities := [0.40; 0.35; 0.15; 0.05; 0.05]%Q |})
  ].

Definition SOCIAL_MEDIA_TIME_RANGES : gmap string (gmap string (Q * Q)) :=
  list_to_map [
    ("early_teen", list_to_map [
       ("TikTok", (6.0, 9.0)); ("Instagram", (4.5, 7.0));
       ("Snapchat", (3.5, 6.0)); ("Twitter", (2.0, 4.5));
       ("Facebook", (2.0, 4.5)) ]%Q);
    ("high_school", list_to_map [
       ("Instagram", (5.0, 8.0)); ("TikTok", (4.5, 7.5));
       ("Snapchat", (3.0, 5.5)); ("Twitter", (1.5, 4.0));
       ("Facebook", (1.5, 4.0)) ]%Q);
    ("college_freshman", list_to_map [
       ("TikTok", (4.5, 8.0)); ("Instagram", (3.5, 6.5));
       ("Twitter", (1.5, 4.0)); ("Snapchat", (1.5, 4.0));
       ("Facebook", (1.5, 4.0)) ]%Q)
  ].

(** The chain of comparisons of [get_teen_age_group], on the age as a
    float. *)
Definition teen_age_group_of (age : Q) : option string :=
  if Qle_bool 13 age && Qle_bool age 14 then Some "early_teen"
  else if Qle_bool 15 age && Qle_bool age 17 then Some "high_school"
  else if Qle_bool 18 age && Qle_bool age 19 then Some "college_freshman"
  else None.

(** The fallback range of [assign_social_media_time] for a platform
    without an entry in the table. *)
Definition default_time_range (age_group : string) : Q * Q :=
  if bool_decide (age_group = "early_teen") then (2.0, 4.5)%Q
  else if bool_decide (age_group = "high_school") then (1.5, 4.0)%Q
  else (1.5, 4.0)%Q.

(** The seven ages [expand_teen_ages] draws from, and the ages selected by
    the two masks. *)
Definition expanded_ages : list Q := [13.0; 14.0; 15.0; 16.0; 17.0; 18.0; 19.0]%Q.
Definition original_teen_ages : list Q := [18.0; 19.0]%Q.

Section Pass.
Context {gen : Type} `{!PRNG gen}.
(** [float(s)] on a [str] cell ([None]: [ValueError]). *)
Variable float_of_str : string → option Q.

(** [float(age)] on a cell that is not missing. *)
Definition float_of_value (v : value) : option Q :=
  match v with
  | VNum q => Some q
  | VStr s => float_of_str s
  | VNaN => None
  end.

Definition get_teen_age_group (age : value) : option (option string) :=
  if isna age then Some None else
  age ← float_of_value age;
  Some (teen_age_group_of age).

(** [assign_platform_by_teen_age]; the Python [None] it returns for an
    age outside the groups is stored as a missing cell. *)
Definition assign_platform_by_teen_age (age : value) (g : gen)
    : option (value * gen) :=
  age_group ← get_teen_age_group age;
  match age_group with
  | None => Some (VNaN, g)
  | Some age_group =>
      spec ← AGE_PLATFORM_PROBABILITIES !! age_group;
      '(selected_platform, g') ← np_choice (platforms spec) (probabilities spec) g;
      Some (VStr selected_platform, g')
  end.

(** The range [assign_social_media_time] samples from. *)
Definition time_range (age_group : string) (platform : value)
    : option (Q * Q) :=
  time_ranges ← SOCIAL_MEDIA_TIME_RANGES !! age_group;
  Some (match platform with
        | VStr p => default (default_time_range age_group) (time_ranges !! p)
        | _ => default_time_range age_group
        end).

Definition assign_social_media_time (age platform : value) (g : gen)
    : option (option Q * gen) :=
  age_group ← get_teen_age_group age;
  match age_group with
  | None => Some (None, g)
  | Some age_group =>
      if isna platform || is_empty_str platform then Some (None, g)
      else
        '(min_time, max_time) ← time_range age_group platform;
        let '(time, g') := uniform min_time max_time g in
        Some (Some time, g')
  end.

(** [expand_teen_ages]:
    <<
    teen_mask = df['age'].isin([18.0, 19.0])
    teen_count = teen_mask.sum()
    new_ages = np.random.choice([13.0, ..., 19.0], size=teen_count, replace=True)
    df.loc[teen_mask, 'age'] = new_ages
    >> *)
Definition expand_teen_ages (df : DataFrame) (g : gen)
    : option (DataFrame * gen) :=
  ages ← df !! "age";
  let teen_mask := isin original_teen_ages <$> ages in
  let teen_count := mask_sum teen_mask in
  '(new_ages, g') ← np_choice_size (VNum <$> expanded_ages) teen_count g;
  Some (<["age" := assign_masked teen_mask ages new_ages]> df, g').

(** The bodies of the two loops of [update_teen_platforms_and_time]. *)
Definition update_platform (idx : nat) (st : DataFrame * gen)
    : option (DataFrame * gen) :=
  let '(df, g) := st in
  age ← get_cell df "age" idx;
  '(new_platform, g') ← assign_platform_by_teen_age age g;
  Some (set_cell df "social_platform_preference" idx new_platform, g').

Definition update_time (idx : nat) (st : DataFrame * gen)
    : option (DataFrame * gen) :=
  let '(df, g) := st in
  age ← get_cell df "age" idx;
  platform ← get_cell df "social_platform_preference" idx;
  '(new_time, g') ← assign_social_media_time age platform g;
  match new_time with
  | Some t => Some (set_cell df "daily_social_media_time" idx (VNum t), g')
  | None => Some (df, g')
  end.

Definition update_teen_platforms_and_time (df : DataFrame) (g : gen)
    : option (DataFrame * gen) :=
  ages ← df !! "age";
  let teen_mask := isin expanded_ages <$> ages in
  let teen_indices := index_where teen_mask in
  st ← for_state update_platform teen_indices (df, g);
  for_state update_time teen_indices st.

(** [main], from the frame read to the frame written. *)
Definition main (df : DataFrame) (g : gen) : option (DataFrame * gen) :=
  '(df1, g1) ← expand_teen_ages df g;
  update_teen_platforms_and_time df1 g1.

End Pass.
End Teen.

(** * The verification reports

    The [verify_*] functions only print; what is modelled is the data they
    compute before printing. *)

(** [Series.isin(values)] for a list of strings. *)
Definition isin_str (values : list string) (v : value) : bool :=
  match v with
  | VStr s => bool_decide (s ∈ values)
  | _ => false
  end.

(** The generator after [n] further draws of [random_sample]. *)
Definition advance {gen : Type} `{!PRNG gen} (n : nat) (g : gen) : gen :=
  Nat.iter n (λ g0, (random_sample g0).2) g.

Module JobTypesReport.

(** The ages of the critical check of [verify_distribution]. *)
Definition critical_ages : list Q := [18.0; 19.0; 20.0; 21.0; 22.0]%Q.

(** The mask of the critical check:
    <<
    (df['age'].isin([18.0, 19.0, 20.0, 21.0, 22.0])) &
    (df['job_type'].isin(['Finance', 'Health', 'Education']))
    >> *)
Definition impossible_mask (ages jobs : list value) : list bool :=
  zip_with andb (isin critical_ages <$> ages)
                (isin_str JobTypes.impossible_jobs <$> jobs).

(** [len(impossible)] in [verify_distribution] (and [len(problematic_before)]
    in [fix_job_types]); [None] is the [KeyError] of a missing column. *)
Definition impossible_count (df : DataFrame) : option nat :=
  ages ← df !! "age";
  jobs ← df !! "job_type";
  Some (mask_sum (impossible_mask ages jobs)).

End JobTypesReport.

Module PlatformsReport.

Section Report.
Variable float_of_str : string → option Q.

(** The body of the loop of [verify_distribution]; the state is the
    [defaultdict(list)] of platforms per age group:
    <<
    if age and platform:
        age_group = get_age_group(age)
        if age_group:
            age_group_platforms[age_group].append(platform)
    >> *)
Definition tally_row (row : Row) (age_group_platforms : gmap string (list string))
    : option (gmap string (list string)) :=
  let age := row_get row "age" in
  let platform := row_get row "social_platform_preference" in
  if truthy age && truthy platform then
    age_group ← Platforms.get_age_group float_of_str age;
    match age_group with
    | Some age_group =>
        if truthy age_group then
          Some (<[age_group :=
                    default [] (age_group_platforms !! age_group) ++ [platform]]>
                  age_group_platforms)
        else Some age_group_platforms
    | None => Some age_group_platforms
    end
  else Some age_group_platforms.

(** [age_group_platforms] after the loop over the rows of the file. *)
Definition tally (rows : list Row) : option (gmap string (list string)) :=
  for_state tally_row rows ∅.

End Report.
End PlatformsReport.

(** * Concrete builtins for the examples

    The passes are parametric in the conversions [float(s)], [int(s)] and
    [str(x)].  The examples instantiate them with a reader of plain
    decimal literals (an optional sign, digits, an optional fraction) and
    a printer of reduced fractions. *)

Module Builtins.

Definition digit_of (c : Ascii.ascii) : option Z :=
  let n := Ascii.nat_of_ascii c in
  if (48 <=? n) && (n <=? 57) then Some (Z.of_nat (n - 48)) else None.

(** Reads the leading digits of [s]: their value, their number and the
    rest of the text. *)
Fixpoint digits (s : string) (acc : Z) (n : nat) : Z * nat * string :=
  match s with
  | String c s' =>
      match digit_of c with
      | Some d => digits s' (acc * 10 + d)%Z (S n)
      | None => (acc, n, s)
      end
  | EmptyString => (acc, n, s)
  end.

Definition split_sign (s : string) : Z * string :=
  match s with
  | String "-"%char s' => ((-1)%Z, s')
  | _ => (1%Z, s)
  end.

Definition float_of_str (s : string) : option Q :=
  let '(sign, s1) := split_sign s in
  let '(ip, ni, s2) := digits s1 0 0 in
  match s2 with
  | EmptyString =>
      if ni =? 0 then None else Some (inject_Z (sign * ip))
  | String "."%char s3 =>
      let '(fp, nf, s4) := digits s3 0 0 in
      match s4 with
      | EmptyString =>
          if ni + nf =? 0 then None
          else Some (Qred (Qmake (sign * (ip * 10 ^ Z.of_nat nf + fp))
                             (Z.to_pos (10 ^ Z.of_nat nf))))
      | _ => None
      end
  | _ => None
  end.

Definition int_of_str (s : string) : option Z :=
  let '(sign, s1) := split_sign s in
  let '(ip, ni, s2) := digits s1 0 0 in
  match s2 with
  | EmptyString => if ni =? 0 then None else Some (sign * ip)%Z
  | _ => None
  end.

Definition str_of_float (q : Q) : string :=
  let r := Qred q in
  pretty (Qnum r) +:+ "/" +:+ pretty (Zpos (Qden r)).

End Builtins.

(** A few evaluations of the builtins and of the buckets. *)

Example float_of_str_17 : Builtins.float_of_str "17" = Some 17%Q.
Proof. reflexivity. Qed.

Example float_of_str_19_5 : Builtins.float_of_str "19.5" = Some (39 # 2)%Q.
Proof. reflexivity. Qed.

Example float_of_str_bad : Builtins.float_of_str "abc" = None.
Proof. reflexivity. Qed.

Example py_int_truncates : py_int (45 # 2) = 22%Z ∧ py_int (- (45 # 2)) = (-22)%Z.
Proof. split; reflexivity. Qed.

Example platform_group_boundary :
  Platforms.age_group_of 20 = Some "young_adult" ∧
  Platforms.age_group_of (19999 # 1000) = Some "teen" ∧
  Platforms.age_group_of 17 = None ∧
  Platforms.age_group_of 70 = Some "senior".
Proof. repeat split; reflexivity. Qed.

Example productivity_group_examples :
  Productivity.age_group_of 19 = Some "teen" ∧
  Productivity.age_group_of 20 = Some "young_adult" ∧
  Productivity.age_group_of 55 = Some "middle_aged" ∧
  Productivity.age_group_of 66 = None.
Proof. repeat split; reflexivity. Qed.

Example bisect_right_example :
  bisect_right [0.45; 0.80; 0.95; 1.00]%Q 0.80%Q 0 3 = 2 ∧
  bisect_right [0.45; 0.80; 0.95; 1.00]%Q 0.10%Q 0 3 = 0 ∧
  bisect_right [0.45; 0.80; 0.95; 1.00]%Q 0.99%Q 0 3 = 3.
Proof. repeat split; reflexivity. Qed.

(** * Sample inputs

    Small frames and row lists on which the passes are evaluated with the
    generator [LCG.lcg] started from the state 42. *)

Module Samples.

Definition seed : Z := 42.

(** A frame with two young records, a missing age and two adults. *)
Definition jobs_frame : DataFrame :=
  list_to_map [
    ("age", [VNum 18; VNum (41 # 2); VNaN; VNum 40; VNum 70]);
    ("gender", [VStr "Male"; VStr "Female"; VStr "Other"; VStr "Male";
                VStr "Female"]);
    ("job_type", [VStr "Finance"; VStr "Health"; VStr "Finance";
                  VStr "Healthcare"; VStr "IT"])
  ].

(** A frame with a high-school age, an age to be redistributed, an adult
    and a missing age. *)
Definition teen_frame : DataFrame :=
  list_to_map [
    ("age", [VNum 16; VNum 18; VNum 30; VNaN]);
    ("gender", [VStr "Male"; VStr "Female"; VStr "Other"; VStr "Male"]);
    ("social_platform_preference",
       [VStr "Facebook"; VStr "Telegram"; VStr "Telegram"; VStr "Twitter"]);
    ("daily_social_media_time", [VNum 1; VNum 2; VNum 3; VNum 4])
  ].

(** A frame of the job-type pass with one record below every age range. *)
Definition minor_frame : DataFrame :=
  list_to_map [
    ("age", [VNum 17]);
    ("gender", [VStr "Male"]);
    ("job_type", [VStr "Student"])
  ].

(** Rows of the platform pass: an age below every bucket, an age in a
    bucket and a missing age. *)
Definition minor_row : Row :=
  list_to_map [("age", "17"); ("gender", "Male");
               ("social_platform_preference", "Facebook")].

Definition platform_rows : list Row := [
  minor_row;
  list_to_map [("age", "25"); ("gender", "Female");
               ("social_platform_preference", "Telegram")];
  list_to_map [("age", ""); ("gender", "Other");
               ("social_platform_preference", "Twitter")]
].

(** Rows of the productivity pass: a teen close to the upper bound, a
    fractional age between two groups, a missing actual score, an adult
    and a senior with an actual score below the scale. *)
Definition near_top_row : Row :=
  list_to_map [("age", "18"); ("job_type", "Student");
               ("actual_productivity_score", "9.5");
               ("perceived_productivity_score", "3")].

Definition between_groups_row : Row :=
  list_to_map [("age", "19.5"); ("job_type", "Student");
               ("actual_productivity_score", "5");
               ("perceived_productivity_score", "4")].

Definition below_scale_row : Row :=
  list_to_map [("age", "60"); ("job_type", "Finance");
               ("actual_productivity_score", "-2");
               ("perceived_productivity_score", "1")].

Definition productivity_rows : list Row := [
  near_top_row;
  between_groups_row;
  list_to_map [("age", "45"); ("job_type", "IT");
               ("actual_productivity_score", "");
               ("perceived_productivity_score", "2")];
  list_to_map [("age", "50"); ("job_type", "Health");
               ("actual_productivity_score", "6");
               ("perceived_productivity_score", "")];
  below_scale_row
].

(** The results of the passes on the samples. *)
Definition jobs_out : DataFrame * Z :=
  Eval vm_compute in
    default (∅, 0%Z)
      (JobTypes.fix_job_types Builtins.int_of_str jobs_frame seed).

Definition minor_jobs_out : DataFrame * Z :=
  Eval vm_compute in
    default (∅, 0%Z)
      (JobTypes.fix_job_types Builtins.int_of_str minor_frame seed).

Definition teen_out : DataFrame * Z :=
  Eval vm_compute in
    default (∅, 0%Z) (Teen.main Builtins.float_of_str teen_frame seed).

Definition platform_out : list Row * Z :=
  Eval vm_compute in
    default ([], 0%Z)
      (Platforms.correct_csv_platforms Builtins.float_of_str platform_rows seed).

Definition minor_platform_out : list Row * Z :=
  Eval vm_compute in
    default ([], 0%Z)
      (Platforms.correct_csv_platforms Builtins.float_of_str [minor_row] seed).

Definition productivity_out : list Row * gmap string (list Q) * Z :=
  Eval vm_compute in
    default ([], ∅, 0%Z)
      (Productivity.recalibrate_productivity_scores Builtins.float_of_str
         Builtins.str_of_float productivity_rows seed).

Definition expand_out : DataFrame * Z :=
  Eval vm_compute in
    default (∅, 0%Z) (Teen.expand_teen_ages teen_frame seed).

Definition productivity_means : gmap string Q :=
  Eval vm_compute in
    default ∅
      (Productivity.calculate_age_group_means Builtins.float_of_str
         productivity_rows).

End Samples.

Lemma productivity_means_run :
  Productivity.calculate_age_group_means Builtins.float_of_str
    Samples.productivity_rows = Some Samples.productivity_means.
Proof. vm_cast_no_check (eq_refl (Some Samples.productivity_means)). Qed.

Lemma expand_run :
  Teen.expand_teen_ages Samples.teen_frame Samples.seed
    = Some Samples.expand_out.
Proof. vm_cast_no_check (eq_refl (Some Samples.expand_out)). Qed.

Lemma jobs_run :
  JobTypes.fix_job_types Builtins.int_of_str Samples.jobs_frame Samples.seed
    = Some Samples.jobs_out.
Proof. vm_cast_no_check (eq_refl (Some Samples.jobs_out)). Qed.

Lemma minor_jobs_run :
  JobTypes.fix_job_types Builtins.int_of_str Samples.minor_frame Samples.seed
    = Some Samples.minor_jobs_out.
Proof. vm_cast_no_check (eq_refl (Some Samples.minor_jobs_out)). Qed.

Lemma teen_run :
  Teen.main Builtins.float_of_str Samples.teen_frame Samples.seed
    = Some Samples.teen_out.
Proof. vm_cast_no_check (eq_refl (Some Samples.teen_out)). Qed.

Lemma platform_run :
  Platforms.correct_csv_platforms Builtins.float_of_str Samples.platform_rows
    Samples.seed = Some Samples.platform_out.
Proof. vm_cast_no_check (eq_refl (Some Samples.platform_out)). Qed.

Lemma minor_platform_run :
  Platforms.correct_csv_platforms Builtins.float_of_str [Samples.minor_row]
    Samples.seed = Some Samples.minor_platform_out.
Proof. vm_cast_no_check (eq_refl (Some Samples.minor_platform_out)). Qed.

Lemma productivity_run :
  Productivity.recalibrate_productivity_scores Builtins.float_of_str
    Builtins.str_of_float Samples.productivity_rows Samples.seed
    = Some Samples.productivity_out.
Proof. vm_cast_no_check (eq_refl (Some Samples.productivity_out)). Qed.

(** * Facts about the job-type pass *)

Section JobTypesFacts.
Context {gen : Type} `{!PRNG gen}.
Variable int_of_str : string → option Z.

Import JobTypes.

Lemma assign_realistic_job_missing (g : gen) :
  assign_realistic_job int_of_str VNaN g = Some ("Student", g).
Proof. reflexivity. Qed.

Lemma assign_realistic_job_young age a g job g' :
  int_of_value int_of_str age = Some a → (18 <= a <= 22)%Z →
  assign_realistic_job int_of_str age g = Some (job, g') →
  job ∈ ["Student"; "Unemployed"; "IT"; "Other"].
Proof.
  intros Ha Hr. unfold assign_realistic_job.
  destruct age as [q|s|]; [| |done]; simpl isna; cbn iota;
    rewrite Ha; simpl;
    assert (Hc : (a = 18 ∨ a = 19 ∨ a = 20 ∨ a = 21 ∨ a = 22)%Z) by lia;
    destruct Hc as [->|[->|[->|[->| ->]]]]; simpl;
    intros H; by apply np_choice_elem in H as [H _].
Qed.

Lemma assign_realistic_job_total age g :
  age = VNaN ∨ is_Some (int_of_value int_of_str age) →
  is_Some (assign_realistic_job int_of_str age g).
Proof.
  intros [-> | [a Ha]]; [by eexists|].
  unfold assign_realistic_job.
  destruct (isna age); [by eexists|]. rewrite Ha; simpl.
  repeat (case_match; [by apply np_choice_Some|]).
  by apply np_choice_Some.
Qed.

Lemma fix_job_types_inv df g df' g' :
  fix_job_types int_of_str df g = Some (df', g') →
  ∃ ages jobs, df !! "age" = Some ages ∧
    for_each (assign_cell int_of_str) ages g = Some (jobs, g') ∧
    df' = <["job_type" := jobs]> df.
Proof.
  unfold fix_job_types. intros H.
  destruct (df !! "age") as [ages|]; [simpl in H | done].
  destruct (df !! "job_type"); [simpl in H | done].
  destruct (for_each _ ages g) as [[jobs g1]|] eqn:E; simplify_eq/=.
  by exists ages, jobs.
Qed.

Lemma assign_cell_inv age g v g' :
  assign_cell int_of_str age g = Some (v, g') →
  ∃ job, v = VStr job ∧ assign_realistic_job int_of_str age g = Some (job, g').
Proof.
  unfold assign_cell. intros H.
  destruct (assign_realistic_job _ age g) as [[job g1]|]; simplify_eq/=.
  by exists job.
Qed.

Lemma fix_job_types_cell df g df' g' i age :
  fix_job_types int_of_str df g = Some (df', g') →
  get_cell df' "age" i = Some age →
  ∃ job gi gi', get_cell df' "job_type" i = Some (VStr job) ∧
    assign_realistic_job int_of_str age gi = Some (job, gi').
Proof.
  intros H Hage.
  apply fix_job_types_inv in H as (ages & jobs & Hages & Hfor & ->).
  unfold get_cell in *. rewrite lookup_insert_ne in Hage by done.
  rewrite Hages in Hage; simpl in Hage.
  destruct (for_each_lookup _ _ _ _ _ _ _ Hfor Hage) as (v & gi & gi' & Hv & Hf).
  apply assign_cell_inv in Hf as (job & -> & Hf).
  exists job, gi, gi'. by rewrite lookup_insert_eq.
Qed.

Lemma fix_job_types_total df g ages :
  df !! "age" = Some ages → is_Some (df !! "job_type") →
  (∀ age, age ∈ ages → age = VNaN ∨ is_Some (int_of_value int_of_str age)) →
  is_Some (fix_job_types int_of_str df g).
Proof.
  intros Hages [c Hc] Hall. unfold fix_job_types.
  rewrite Hages, Hc; simpl.
  destruct (for_each_Some (assign_cell int_of_str) ages g) as [[jobs g'] ->];
    [|by eexists].
  intros age g0 Hin. unfold assign_cell.
  destruct (assign_realistic_job_total age g0 (Hall _ Hin)) as [[job g1] ->].
  by eexists.
Qed.

End JobTypesFacts.

(** * Properties of the job-type pass *)

(** C1: after the job-type pass every record whose age truncates to an
    integer from 18 to 22 holds a job type drawn from Student, Unemployed,
    IT and Other, hence none of Finance, Health and Education. *)
Theorem job_types_young_ages_realistic {gen : Type} `{!PRNG gen}
    (int_of_str : string → option Z) (df df' : DataFrame) (g g' : gen)
    (i : nat) (age : value) (a : Z) :
  JobTypes.fix_job_types int_of_str df g = Some (df', g') →
  get_cell df' "age" i = Some age →
  JobTypes.int_of_value int_of_str age = Some a →
  (18 <= a <= 22)%Z →
  ∃ job, get_cell df' "job_type" i = Some (VStr job) ∧
         job ∈ ["Student"; "Unemployed"; "IT"; "Other"] ∧
         job ∉ JobTypes.impossible_jobs.
Proof.
  intros Hpass Hage Ha Hr.
  destruct (fix_job_types_cell _ _ _ _ _ _ _ Hpass Hage)
    as (job & gi & gi' & Hjob & Hassign).
  exists job. split; [done|].
  pose proof (assign_realistic_job_young _ _ _ _ _ _ Ha Hr Hassign) as Hin.
  split; [done|].
  intros Hbad. apply list_elem_of_In in Hin, Hbad. simpl in Hin, Hbad.
  destruct Hin as [<-|[<-|[<-|[<-|[]]]]];
    destruct Hbad as [?|[?|[?|[]]]]; discriminate.
Qed.

Lemma job_types_young_ages_realistic_witness :
  ∃ df' g',
    JobTypes.fix_job_types Builtins.int_of_str Samples.jobs_frame Samples.seed
      = Some (df', g') ∧
    ∃ job, get_cell df' "job_type" 1 = Some (VStr job) ∧
           job ∈ ["Student"; "Unemployed"; "IT"; "Other"] ∧
           job ∉ JobTypes.impossible_jobs.
Proof.
  exists Samples.jobs_out.1, Samples.jobs_out.2. split; [exact jobs_run|].
  apply (job_types_young_ages_realistic Builtins.int_of_str
           Samples.jobs_frame Samples.jobs_out.1 Samples.seed
           Samples.jobs_out.2 1 (VNum (41 # 2)) 20 jobs_run).
  - vm_compute. reflexivity.
  - reflexivity.
  - lia.
Defined.

(** C5: a record whose age is missing is assigned the job type Student
    whatever its original job type was, and the assignment draws nothing
    from the generator. *)
Theorem job_types_missing_age_student {gen : Type} `{!PRNG gen}
    (int_of_str : string → option Z) (df df' : DataFrame) (g g' : gen)
    (i : nat) :
  JobTypes.fix_job_types int_of_str df g = Some (df', g') →
  get_cell df "age" i = Some VNaN →
  get_cell df' "job_type" i = Some (VStr "Student") ∧
  ∀ g0 : gen, JobTypes.assign_realistic_job int_of_str VNaN g0
              = Some ("Student", g0).
Proof.
  intros Hpass Hage. split; [|done].
  assert (Hage' : get_cell df' "age" i = Some VNaN).
  { apply fix_job_types_inv in Hpass as (ages & jobs & Hages & _ & ->).
    unfold get_cell in *. by rewrite lookup_insert_ne. }
  destruct (fix_job_types_cell _ _ _ _ _ _ _ Hpass Hage')
    as (job & gi & gi' & Hjob & Hassign).
  rewrite assign_realistic_job_missing in Hassign. by simplify_eq.
Qed.

Lemma job_types_missing_age_student_witness :
  ∃ df' g',
    JobTypes.fix_job_types Builtins.int_of_str Samples.jobs_frame Samples.seed
      = Some (df', g') ∧
    get_cell Samples.jobs_frame "job_type" 2 = Some (VStr "Finance") ∧
    get_cell df' "job_type" 2 = Some (VStr "Student").
Proof.
  exists Samples.jobs_out.1, Samples.jobs_out.2. split; [exact jobs_run|].
  split; [vm_compute; reflexivity|].
  apply (job_types_missing_age_student Builtins.int_of_str
           Samples.jobs_frame Samples.jobs_out.1 Samples.seed
           Samples.jobs_out.2 2 jobs_run).
  vm_compute. reflexivity.
Defined.

(** * Facts about the platform pass *)

Section PlatformsFacts.
Context {gen : Type} `{!PRNG gen}.
Variable float_of_str : string → option Q.

Import Platforms.

Lemma truthy_true (s : string) : truthy s = true ↔ s ≠ "".
Proof. unfold truthy. rewrite negb_true_iff, bool_decide_eq_false. done. Qed.

Lemma correct_row_inv row g row' g' :
  correct_row float_of_str row g = Some (row', g') →
  (row' = row ∧ g' = g ∧ row_get row "age" = "") ∨
  (∃ p, row' = <["social_platform_preference" := p]> row ∧
        assign_platform_by_age float_of_str (row_get row "age") g = Some (p, g')).
Proof.
  unfold correct_row. intros H.
  destruct (truthy (row_get row "age")) eqn:Ht.
  - destruct (assign_platform_by_age _ _ g) as [[p g1]|]; simplify_eq/=.
    right. by exists p.
  - simplify_eq. left. repeat split.
    unfold truthy in Ht. apply negb_false_iff, bool_decide_eq_true in Ht. done.
Qed.

Lemma correct_row_frame row g row' g' k :
  correct_row float_of_str row g = Some (row', g') →
  k ≠ "social_platform_preference" → row' !! k = row !! k.
Proof.
  intros H Hk. apply correct_row_inv in H as [(-> & _) | (p & -> & _)]; [done|].
  by rewrite lookup_insert_ne.
Qed.

(** A present age that no bucket contains: the platform is overwritten
    with the empty string and nothing is drawn. *)
Lemma correct_row_bucket_miss row g a :
  float_of_str (row_get row "age") = Some a →
  row_get row "age" ≠ "" →
  age_group_of a = None →
  correct_row float_of_str row g
    = Some (<["social_platform_preference" := ""]> row, g).
Proof.
  intros Ha Hne Hgrp. unfold correct_row.
  apply truthy_true in Hne as Ht. rewrite Ht.
  unfold assign_platform_by_age, get_age_group.
  rewrite bool_decide_eq_false_2 by done.
  rewrite Ha; simpl. by rewrite Hgrp.
Qed.

Lemma age_group_of_table a k :
  age_group_of a = Some k → is_Some (AGE_PLATFORM_PROBABILITIES !! k).
Proof.
  unfold age_group_of.
  repeat (case_match; [intros [= <-]; by eexists|]). done.
Qed.

End PlatformsFacts.

(** * Facts about the productivity pass *)

Lemma py_clamp_range (x : Q) : (0 <= py_max 0 (py_min 10 x) <= 10)%Q.
Proof.
  unfold py_max, py_min.
  destruct (Qltb x 10) eqn:E1.
  - apply Qltb_true in E1.
    destruct (Qltb 0 x) eqn:E2.
    + apply Qltb_true in E2. lra.
    + lra.
  - apply Qltb_false in E1.
    destruct (Qltb 0 10) eqn:E2; [lra|].
    apply Qltb_false in E2. lra.
Qed.

Lemma py_clamp_inside (x : Q) : (0 <= x <= 10)%Q → (py_max 0 (py_min 10 x) == x)%Q.
Proof.
  intros [H0 H1]. unfold py_max, py_min.
  destruct (Qltb x 10) eqn:E1.
  - destruct (Qltb 0 x) eqn:E2; [reflexivity|].
    apply Qltb_false in E2. lra.
  - apply Qltb_false in E1.
    destruct (Qltb 0 10) eqn:E2; [lra|]. apply Qltb_false in E2. lra.
Qed.

Lemma py_clamp_above (x : Q) : (10 < x)%Q → (py_max 0 (py_min 10 x) == 10)%Q.
Proof.
  intros H. unfold py_max, py_min.
  destruct (Qltb x 10) eqn:E1; [apply Qltb_true in E1; lra|].
  destruct (Qltb 0 10) eqn:E2; [reflexivity|]. apply Qltb_false in E2. lra.
Qed.

Lemma py_clamp_below (x : Q) : (x < 0)%Q → (py_max 0 (py_min 10 x) == 0)%Q.
Proof.
  intros H. unfold py_max, py_min.
  destruct (Qltb x 10) eqn:E1.
  - destruct (Qltb 0 x) eqn:E2; [apply Qltb_true in E2; lra | reflexivity].
  - apply Qltb_false in E1. lra.
Qed.

Section ProductivityFacts.
Context {gen : Type} `{!PRNG gen}.
Variable float_of_str : string → option Q.
Variable str_of_float : Q → string.

Import Productivity.

(** What [recalibrate_row] does to a row: it either skips it, or stores a
    new perceived score (after possibly imputing the actual score). *)
Inductive recalibrated (means : gmap string Q) (row : Row)
    (st : gmap string (list Q) * gen) (row' : Row)
    (st' : gmap string (list Q) * gen) : Prop :=
  | rc_skipped : row' = row → st' = st → recalibrated means row st row' st'
  | rc_scored age age_group cfg actual row1 :
      float_of_str (row_get row "age") = Some age →
      age_group_of age = Some age_group →
      gap_config_of age_group = Some cfg →
      (row_get row "actual_productivity_score" ≠ "" ∧
         float_of_str (row_get row "actual_productivity_score") = Some actual ∧
         row1 = row
       ∨ row_get row "actual_productivity_score" = "" ∧
         means !! age_group = Some actual ∧
         row1 = <["actual_productivity_score" := str_of_float actual]> row) →
      let gap := (uniform (gap_min cfg) (gap_max cfg) st.2).1 in
      row' = <["perceived_productivity_score" :=
                 str_of_float (new_perceived actual gap)]> row1 →
      st' = (<[age_group := default [] (st.1 !! age_group)
                              ++ [(new_perceived actual gap - actual)%Q]]> st.1,
             (random_sample st.2).2) →
      recalibrated means row st row' st'.

Lemma recalibrate_row_inv means row st row' st' :
  recalibrate_row float_of_str str_of_float means row st = Some (row', st') →
  recalibrated means row st row' st'.
Proof.
  unfold recalibrate_row. destruct st as [gaps g]. intros H.
  destruct (truthy (row_get row "age")) eqn:Hage; simpl in H;
    [|simplify_eq; by constructor].
  unfold get_age_group in H.
  apply truthy_true in Hage. rewrite bool_decide_eq_false_2 in H by done.
  destruct (float_of_str (row_get row "age")) as [age|] eqn:Hf; [|done].
  simpl in H.
  destruct (age_group_of age) as [k|] eqn:Hk; [|simplify_eq; by constructor].
  destruct (truthy (row_get row "actual_productivity_score")) eqn:Hact;
    simpl in H.
  - apply truthy_true in Hact.
    destruct (float_of_str (row_get row "actual_productivity_score"))
      as [actual|] eqn:Ha; [|done]. simpl in H.
    destruct (gap_config_of k) as [cfg|] eqn:Hc; [|done]. simpl in H.
    pose proof (uniform_gen (gap_min cfg) (gap_max cfg) g) as Hg.
    destruct (uniform (gap_min cfg) (gap_max cfg) g) as [gap g1] eqn:Hu.
    simplify_eq/=.
    eapply (rc_scored _ _ _ _ _ age k cfg actual row); eauto;
      simpl; rewrite Hu; simpl; done.
  - unfold truthy in Hact. apply negb_false_iff, bool_decide_eq_true in Hact.
    destruct (means !! k) as [m|] eqn:Hm; [|simplify_eq; by constructor].
    destruct (gap_config_of k) as [cfg|] eqn:Hc; [|done]. simpl in H.
    pose proof (uniform_gen (gap_min cfg) (gap_max cfg) g) as Hg.
    destruct (uniform (gap_min cfg) (gap_max cfg) g) as [gap g1] eqn:Hu.
    simplify_eq/=.
    eapply (rc_scored _ _ _ _ _ age k cfg m
              (<["actual_productivity_score" := str_of_float m]> row)); eauto;
      simpl; rewrite Hu; simpl; done.
Qed.

Lemma recalibrate_row_frame means row st row' st' k :
  recalibrate_row float_of_str str_of_float means row st = Some (row', st') →
  k ≠ "actual_productivity_score" → k ≠ "perceived_productivity_score" →
  row' !! k = row !! k.
Proof.
  intros H Hk1 Hk2. apply recalibrate_row_inv in H.
  destruct H as [-> _ | age grp cfg actual row1 _ _ _ Hrow1 gap -> _]; [done|].
  rewrite lookup_insert_ne by done.
  destruct Hrow1 as [(_ & _ & ->) | (_ & _ & ->)]; [done|].
  by rewrite lookup_insert_ne.
Qed.

(** A present age that no bucket contains: the row is skipped. *)
Lemma recalibrate_row_bucket_miss means row st a :
  float_of_str (row_get row "age") = Some a →
  age_group_of a = None →
  recalibrate_row float_of_str str_of_float means row st = Some (row, st).
Proof.
  intros Ha Hgrp. unfold recalibrate_row. destruct st as [gaps g].
  destruct (truthy (row_get row "age")) eqn:Hage; simpl; [|done].
  unfold get_age_group. apply truthy_true in Hage.
  rewrite bool_decide_eq_false_2 by done. rewrite Ha; simpl. by rewrite Hgrp.
Qed.

Lemma gap_config_of_ordered k cfg :
  gap_config_of k = Some cfg → (gap_min cfg <= gap_max cfg)%Q.
Proof.
  unfold gap_config_of, AGE_GROUP_GAPS. simpl.
  repeat (case_bool_decide; [intros [= <-]; simpl; lra|]). done.
Qed.

Lemma recalibrate_pass_inv rows g out gaps g' :
  recalibrate_productivity_scores float_of_str str_of_float rows g
    = Some (out, gaps, g') →
  ∃ means, calculate_age_group_means float_of_str rows = Some means ∧
    for_each (recalibrate_row float_of_str str_of_float means) rows (∅, g)
      = Some (out, (gaps, g')).
Proof.
  unfold recalibrate_productivity_scores. intros H.
  destruct (calculate_age_group_means _ rows) as [means|]; [simpl in H | done].
  destruct (for_each _ rows _) as [[o [gp g1]]|] eqn:E; simplify_eq/=.
  by exists means.
Qed.

End ProductivityFacts.

(** * Facts about frames and cell-writing loops *)

Lemma frame_okb_ok (df : DataFrame) : frame_okb df = true → frame_ok df.
Proof.
  unfold frame_okb, frame_ok. rewrite forallb_forall. intros H col c Hc.
  apply elem_of_map_to_list, list_elem_of_In, H in Hc.
  by apply Nat.eqb_eq in Hc.
Qed.

Lemma set_cell_lookup_ne df col idx v col' :
  col' ≠ col → set_cell df col idx v !! col' = df !! col'.
Proof. intros H. unfold set_cell. by rewrite lookup_insert_ne. Qed.

Lemma nrows_set_cell df col idx v :
  col ≠ "age" → nrows (set_cell df col idx v) = nrows df.
Proof. intros H. unfold nrows. by rewrite set_cell_lookup_ne. Qed.

Lemma column_or_nan_set_cell df col idx v :
  column_or_nan (set_cell df col idx v) col = <[idx := v]> (column_or_nan df col).
Proof. unfold column_or_nan at 1, set_cell. by rewrite lookup_insert_eq. Qed.

Lemma get_cell_column df col i :
  is_Some (df !! col) → get_cell df col i = column_or_nan df col !! i.
Proof. intros [c Hc]. unfold get_cell, column_or_nan. by rewrite Hc. Qed.

Lemma get_cell_congr (df df' : DataFrame) col i :
  df' !! col = df !! col → get_cell df' col i = get_cell df col i.
Proof. unfold get_cell. by intros ->. Qed.

Lemma column_or_nan_congr (df df' : DataFrame) col :
  df' !! col = df !! col → df' !! "age" = df !! "age" →
  column_or_nan df' col = column_or_nan df col.
Proof. unfold column_or_nan, nrows. by intros -> ->. Qed.

Lemma length_column_or_nan df col :
  frame_ok df → length (column_or_nan df col) = nrows df.
Proof.
  intros Hok. unfold column_or_nan.
  destruct (df !! col) as [c|] eqn:E; simpl; [by eapply Hok|].
  by rewrite length_replicate.
Qed.

Lemma for_state_cons_inv {S A} (body : A → S → option S) a l s s' :
  for_state body (a :: l) s = Some s' →
  ∃ s1, body a s = Some s1 ∧ for_state body l s1 = Some s'.
Proof.
  simpl. intros H. destruct (body a s) as [s1|] eqn:E; [|done].
  by exists s1.
Qed.

(** A loop over row labels whose body writes at most the cell of its own
    row in one column [col], the written value being described by [post]
    in terms of the other columns. *)
Section CellLoop.
Context {gen : Type}.
Variable col : string.
Variable body : nat → DataFrame * gen → option (DataFrame * gen).
Variable post : DataFrame → nat → option value → Prop.
Hypothesis body_spec : ∀ idx df g df' g',
  body idx (df, g) = Some (df', g') →
  ∃ w, post df idx w ∧
       df' = match w with Some v => set_cell df col idx v | None => df end.
Hypothesis post_stable : ∀ (df df' : DataFrame) idx w,
  (∀ c, c ≠ col → df' !! c = df !! c) → post df' idx w → post df idx w.

Lemma cell_loop idxs : ∀ df g df' g',
  NoDup idxs →
  for_state body idxs (df, g) = Some (df', g') →
  (∀ c, c ≠ col → df' !! c = df !! c) ∧
  (is_Some (df !! col) → is_Some (df' !! col)) ∧
  length (column_or_nan df' col) = length (column_or_nan df col) ∧
  (∀ i, i ∉ idxs → column_or_nan df' col !! i = column_or_nan df col !! i) ∧
  (∀ i, i ∈ idxs → ∃ w, post df i w ∧
     match w with
     | Some v => i < length (column_or_nan df col) →
                 get_cell df' col i = Some v
     | None => column_or_nan df' col !! i = column_or_nan df col !! i
     end).
Proof.
  induction idxs as [|idx idxs IH]; intros df g df' g' Hnd Hloop.
  - simplify_eq/=. repeat split; try done. intros i Hi. by apply elem_of_nil in Hi.
  - apply for_state_cons_inv in Hloop as ([df1 g1] & Hbody & Hloop).
    apply NoDup_cons in Hnd as [Hnotin Hnd].
    destruct (IH _ _ _ _ Hnd Hloop) as (Hfr & Hsome & Hlen & Hout & Hin).
    destruct (body_spec _ _ _ _ _ Hbody) as (w & Hpost & Hdf1).
    assert (Hfr1 : ∀ c, c ≠ col → df1 !! c = df !! c).
    { intros c Hc. subst df1. destruct w; [by apply set_cell_lookup_ne | done]. }
    assert (Hcol1 : column_or_nan df1 col
                    = match w with
                      | Some v => <[idx := v]> (column_or_nan df col)
                      | None => column_or_nan df col
                      end).
    { subst df1. destruct w; [apply column_or_nan_set_cell | done]. }
    assert (Hsome1 : is_Some (df !! col) → is_Some (df1 !! col)).
    { subst df1. destruct w; [|done]. intros _. unfold set_cell.
      rewrite lookup_insert_eq. by eexists. }
    split; [intros c Hc; by rewrite Hfr, Hfr1|].
    split; [by auto|].
    split; [rewrite Hlen, Hcol1; destruct w; [by rewrite length_insert | done]|].
    split.
    + intros i Hi. apply not_elem_of_cons in Hi as [Hne Hi].
      rewrite Hout by done. rewrite Hcol1.
      destruct w; [by rewrite list_lookup_insert_ne | done].
    + intros i Hi. apply elem_of_cons in Hi as [-> | Hi].
      * exists w. split; [done|].
        destruct w as [v|].
        -- intros Hlt.
           assert (Hs : is_Some (df' !! col)).
           { apply Hsome. subst df1. unfold set_cell.
             rewrite lookup_insert_eq. by eexists. }
           rewrite get_cell_column by done.
           rewrite Hout by done. rewrite Hcol1.
           by apply list_lookup_insert_eq.
        -- rewrite Hout by done. by rewrite Hcol1.
      * destruct (Hin i Hi) as (w' & Hpost' & Hw').
        exists w'. split; [by eapply post_stable|].
        assert (Hne : i ≠ idx) by (intros ->; done).
        destruct w' as [v|].
        -- intros Hlt. apply Hw'. rewrite Hcol1.
           destruct w; [by rewrite length_insert | done].
        -- rewrite Hw', Hcol1.
           destruct w; [by rewrite list_lookup_insert_ne | done].
Qed.

End CellLoop.

(** * Facts about the teen pass *)

Lemma length_assign_masked mask : ∀ col new,
  length (assign_masked mask col new) = length col.
Proof.
  induction mask as [|b mask IH]; intros col new; [by destruct col|].
  destruct col as [|x col]; [by destruct b|].
  destruct b; simpl; [destruct new; simpl|]; by rewrite ?IH.
Qed.

Lemma assign_masked_unselected mask : ∀ col new i,
  mask !! i ≠ Some true → assign_masked mask col new !! i = col !! i.
Proof.
  induction mask as [|b mask IH]; intros col new i Hi; [by destruct col|].
  destruct col as [|x col]; [by destruct b|].
  destruct b; simpl.
  - destruct i as [|i]; [done|]. destruct new; simpl; [done|]. by apply IH.
  - destruct i as [|i]; [done|]. simpl. by apply IH.
Qed.

Lemma elem_of_index_where mask i :
  i ∈ index_where mask ↔ mask !! i = Some true.
Proof.
  unfold index_where. rewrite list_elem_of_filter, elem_of_seq. split.
  - by intros [? _].
  - intros H. split; [done|]. apply lookup_lt_Some in H. lia.
Qed.

Lemma NoDup_index_where mask : NoDup (index_where mask).
Proof. apply NoDup_filter, NoDup_seq. Qed.

Lemma isin_mask_lookup values (ages : list value) i :
  (isin values <$> ages) !! i = Some true ↔
  ∃ v, ages !! i = Some v ∧ isin values v = true.
Proof.
  rewrite list_lookup_fmap. destruct (ages !! i) as [v|]; simpl.
  - split; [intros [= H]; by exists v | intros (v' & [= <-] & ->); done].
  - split; [done | by intros (v' & ? & _)].
Qed.

Lemma isin_elem values q :
  isin values (VNum q) = true → ∃ c, c ∈ values ∧ (q == c)%Q.
Proof.
  simpl. rewrite existsb_exists. intros (c & Hc & Heq).
  exists c. split; [by apply list_elem_of_In | by apply Qeq_bool_iff].
Qed.

Section TeenFacts.
Context {gen : Type} `{!PRNG gen}.
Variable float_of_str : string → option Q.

Import Teen.

Lemma teen_age_group_of_proper (q c : Q) :
  (q == c)%Q → teen_age_group_of q = teen_age_group_of c.
Proof.
  intros H. unfold teen_age_group_of.
  assert (Hl : ∀ x, Qle_bool x q = Qle_bool x c) by (intros x; by rewrite H).
  assert (Hr : ∀ x, Qle_bool q x = Qle_bool c x) by (intros x; by rewrite H).
  by rewrite !Hl, !Hr.
Qed.

Lemma isin_expanded_group q :
  isin expanded_ages (VNum q) = true →
  ∃ grp spec, teen_age_group_of q = Some grp ∧
    AGE_PLATFORM_PROBABILITIES !! grp = Some spec.
Proof.
  intros H. apply isin_elem in H as (c & Hc & Heq).
  rewrite (teen_age_group_of_proper _ _ Heq).
  apply list_elem_of_In in Hc. simpl in Hc.
  repeat (destruct Hc as [<- | Hc]; [by eexists _, _|]). done.
Qed.

Lemma isin_original_expanded v :
  isin original_teen_ages v = true → isin expanded_ages v = true.
Proof.
  destruct v as [q| |]; [|done..]. simpl.
  rewrite !orb_true_iff. intros [H|[H|H]]; [| |done]; rewrite H;
    repeat ((by left) || right).
Qed.

Lemma platform_labels grp spec s :
  AGE_PLATFORM_PROBABILITIES !! grp = Some spec → s ∈ platforms spec →
  s ∈ ["TikTok"; "Instagram"; "Snapchat"; "Twitter"; "Facebook"] ∧
  is_empty_str (VStr s) = false.
Proof.
  intros Hspec Hs. apply elem_of_list_to_map_2 in Hspec.
  apply list_elem_of_In in Hspec. simpl in Hspec.
  repeat (destruct Hspec as [[= <- <-] | Hspec];
    [simpl in Hs; apply list_elem_of_In in Hs; simpl in Hs;
     repeat (destruct Hs as [<- | Hs];
       [split; [apply list_elem_of_In; simpl; tauto | done]|]); done|]).
  done.
Qed.

Lemma time_range_ordered grp platform lo hi :
  time_range grp platform = Some (lo, hi) → (lo <= hi)%Q.
Proof.
  unfold time_range.
  destruct (SOCIAL_MEDIA_TIME_RANGES !! grp) as [tr|] eqn:Htr; [simpl | done].
  assert (Hdef : ∀ lo hi, default_time_range grp = (lo, hi) → (lo <= hi)%Q).
  { intros lo' hi'. unfold default_time_range.
    repeat case_bool_decide; intros [= <- <-]; lra. }
  destruct platform as [q|p|];
    [by intros [= H]; apply Hdef in H| |by intros [= H]; apply Hdef in H].
  destruct (tr !! p) as [[lo' hi']|] eqn:Hp; simpl;
    [|by intros [= H]; apply Hdef in H].
  intros [= -> ->].
  apply elem_of_list_to_map_2 in Htr.
  repeat (apply elem_of_cons in Htr as [[= -> ->] | Htr];
    [repeat (rewrite lookup_insert in Hp; case_decide;
             [injection Hp as <- <-; lra|]);
     by rewrite lookup_empty in Hp|]).
  by apply elem_of_nil in Htr.
Qed.

(** What the two loop bodies write. *)
Definition platform_post (df : DataFrame) (idx : nat) (w : option value) : Prop :=
  ∃ age p gi gi', get_cell df "age" idx = Some age ∧
    assign_platform_by_teen_age float_of_str age gi = Some (p, gi') ∧
    w = Some p.

Definition time_post (df : DataFrame) (idx : nat) (w : option value) : Prop :=
  ∃ age platform r gi gi', get_cell df "age" idx = Some age ∧
    get_cell df "social_platform_preference" idx = Some platform ∧
    assign_social_media_time float_of_str age platform gi = Some (r, gi') ∧
    w = VNum <$> r.

Lemma update_platform_spec idx df g df' g' :
  update_platform float_of_str idx (df, g) = Some (df', g') →
  ∃ w, platform_post df idx w ∧
    df' = match w with
          | Some v => set_cell df "social_platform_preference" idx v
          | None => df
          end.
Proof.
  unfold update_platform. intros H.
  destruct (get_cell df "age" idx) as [age|] eqn:Hage; [simpl in H | done].
  destruct (assign_platform_by_teen_age _ age g) as [[p g1]|] eqn:Hp;
    simplify_eq/=.
  exists (Some p). split; [|done]. by exists age, p, g, g'.
Qed.

Lemma update_time_spec idx df g df' g' :
  update_time float_of_str idx (df, g) = Some (df', g') →
  ∃ w, time_post df idx w ∧
    df' = match w with
          | Some v => set_cell df "daily_social_media_time" idx v
          | None => df
          end.
Proof.
  unfold update_time. intros H.
  destruct (get_cell df "age" idx) as [age|] eqn:Hage; [simpl in H | done].
  destruct (get_cell df "social_platform_preference" idx) as [pl|] eqn:Hpl;
    [simpl in H | done].
  destruct (assign_social_media_time _ age pl g) as [[r g1]|] eqn:Hr;
    [simpl in H | done].
  exists (VNum <$> r). split; [by exists age, pl, r, g, g1|].
  destruct r; by simplify_eq/=.
Qed.

Lemma platform_post_stable (df df' : DataFrame) idx w :
  (∀ c, c ≠ "social_platform_preference" → df' !! c = df !! c) →
  platform_post df' idx w → platform_post df idx w.
Proof.
  intros Hfr (age & p & gi & gi' & Hage & Hp & ->).
  exists age, p, gi, gi'. split; [|done].
  by rewrite <- (get_cell_congr df df') by (by apply Hfr).
Qed.

Lemma time_post_stable (df df' : DataFrame) idx w :
  (∀ c, c ≠ "daily_social_media_time" → df' !! c = df !! c) →
  time_post df' idx w → time_post df idx w.
Proof.
  intros Hfr (age & pl & r & gi & gi' & Hage & Hpl & Hr & ->).
  exists age, pl, r, gi, gi'.
  rewrite <- (get_cell_congr df df' "age") by (by apply Hfr).
  by rewrite <- (get_cell_congr df df' "social_platform_preference")
    by (by apply Hfr).
Qed.

Lemma assign_platform_by_teen_age_group q grp spec gi p gi' :
  teen_age_group_of q = Some grp →
  AGE_PLATFORM_PROBABILITIES !! grp = Some spec →
  assign_platform_by_teen_age float_of_str (VNum q) gi = Some (p, gi') →
  ∃ s, p = VStr s ∧ s ∈ platforms spec.
Proof.
  intros Hgrp Hspec. unfold assign_platform_by_teen_age, get_teen_age_group.
  simpl. rewrite Hgrp, Hspec; simpl. intros H.
  destruct (np_choice _ _ gi) as [[s g1]|] eqn:E; simplify_eq/=.
  apply np_choice_elem in E as [Hs _]. by exists s.
Qed.

Lemma assign_social_media_time_group q grp s gi r gi' :
  teen_age_group_of q = Some grp →
  is_empty_str (VStr s) = false →
  assign_social_media_time float_of_str (VNum q) (VStr s) gi = Some (r, gi') →
  ∃ lo hi t, time_range grp (VStr s) = Some (lo, hi) ∧ r = Some t ∧
    (lo <= t <= hi)%Q.
Proof.
  intros Hgrp Hne. unfold assign_social_media_time, get_teen_age_group.
  cbn [isna float_of_value mbind option_bind]. rewrite Hgrp.
  cbn [mbind option_bind orb]. rewrite Hne. intros H.
  destruct (time_range grp (VStr s)) as [[lo hi]|] eqn:Htr; [simpl in H | done].
  pose proof (uniform_range lo hi gi (time_range_ordered _ _ _ _ Htr)) as Hu.
  destruct (uniform lo hi gi) as [t g1]. simplify_eq/=.
  by exists lo, hi, t.
Qed.

End TeenFacts.

Lemma frame_ok_after_loop (df df' : DataFrame) col :
  col ≠ "age" → frame_ok df →
  (∀ c, c ≠ col → df' !! c = df !! c) →
  length (column_or_nan df' col) = length (column_or_nan df col) →
  frame_ok df'.
Proof.
  intros Hcol Hok Hfr Hlen col' c Hc.
  assert (Hn : nrows df' = nrows df) by (unfold nrows; by rewrite Hfr).
  rewrite Hn. destruct (decide (col' = col)) as [->|Hne].
  - rewrite <- (length_column_or_nan df col Hok), <- Hlen.
    unfold column_or_nan. by rewrite Hc.
  - rewrite Hfr in Hc by done. by eapply Hok.
Qed.

Lemma get_cell_lt df col i v :
  frame_ok df → get_cell df col i = Some v → i < nrows df.
Proof.
  intros Hok. unfold get_cell.
  destruct (df !! col) as [c|] eqn:E; [simpl | done].
  intros H. apply lookup_lt_Some in H. by rewrite <- (Hok _ _ E).
Qed.

Section TeenPassFacts.
Context {gen : Type} `{!PRNG gen}.
Variable float_of_str : string → option Q.

Import Teen.

Lemma expand_teen_ages_inv df g df1 g1 :
  expand_teen_ages df g = Some (df1, g1) →
  ∃ ages new, df !! "age" = Some ages ∧
    df1 = <["age" := assign_masked (isin original_teen_ages <$> ages) ages new]> df.
Proof.
  unfold expand_teen_ages. intros H.
  destruct (df !! "age") as [ages|]; [simpl in H | done].
  destruct (np_choice_size _ _ g) as [[new g2]|]; simplify_eq/=.
  by exists ages, new.
Qed.

Lemma expand_teen_ages_frame_ok df g df1 g1 :
  frame_ok df → expand_teen_ages df g = Some (df1, g1) → frame_ok df1.
Proof.
  intros Hok H. apply expand_teen_ages_inv in H as (ages & new & Hages & ->).
  assert (Hn : nrows (<["age" := assign_masked (isin original_teen_ages <$> ages)
                                  ages new]> df) = nrows df).
  { unfold nrows. rewrite lookup_insert_eq, Hages; simpl.
    apply length_assign_masked. }
  intros col c Hc. rewrite Hn.
  destruct (decide (col = "age")) as [->|Hne].
  - rewrite lookup_insert_eq in Hc. simplify_eq.
    rewrite length_assign_masked. by eapply Hok.
  - rewrite lookup_insert_ne in Hc by done. by eapply Hok.
Qed.

Lemma expand_teen_ages_unselected df g df1 g1 i :
  expand_teen_ages df g = Some (df1, g1) →
  (∀ v, get_cell df "age" i = Some v → isin original_teen_ages v = false) →
  get_cell df1 "age" i = get_cell df "age" i.
Proof.
  intros H Hv. apply expand_teen_ages_inv in H as (ages & new & Hages & ->).
  unfold get_cell in *. rewrite lookup_insert_eq, Hages in *. simpl in *.
  apply assign_masked_unselected. intros Hm.
  apply isin_mask_lookup in Hm as (v & Hi & Ht).
  specialize (Hv v Hi). congruence.
Qed.

Lemma update_teen_inv df g df' g' :
  update_teen_platforms_and_time float_of_str df g = Some (df', g') →
  ∃ ages df1 g1, df !! "age" = Some ages ∧
    for_state (update_platform float_of_str)
      (index_where (isin expanded_ages <$> ages)) (df, g) = Some (df1, g1) ∧
    for_state (update_time float_of_str)
      (index_where (isin expanded_ages <$> ages)) (df1, g1) = Some (df', g').
Proof.
  unfold update_teen_platforms_and_time. intros H.
  destruct (df !! "age") as [ages|]; [simpl in H | done].
  destruct (for_state (update_platform _) _ (df, g)) as [[df1 g1]|] eqn:E;
    [simpl in H | done].
  by exists ages, df1, g1.
Qed.

Lemma update_teen_frame df g df' g' c :
  update_teen_platforms_and_time float_of_str df g = Some (df', g') →
  c ≠ "social_platform_preference" → c ≠ "daily_social_media_time" →
  df' !! c = df !! c.
Proof.
  intros H Hc1 Hc2.
  apply update_teen_inv in H as (ages & df1 & g1 & Hages & H1 & H2).
  pose proof (NoDup_index_where (isin expanded_ages <$> ages)) as Hnd.
  destruct (cell_loop "social_platform_preference" _ _
              (update_platform_spec float_of_str)
              (platform_post_stable float_of_str) _ _ _ _ _ Hnd H1)
    as (Hfr1 & _).
  destruct (cell_loop "daily_social_media_time" _ _
              (update_time_spec float_of_str)
              (time_post_stable float_of_str) _ _ _ _ _ Hnd H2)
    as (Hfr2 & _).
  by rewrite Hfr2, Hfr1.
Qed.

(** Rows outside the mask keep every cell. *)
Lemma update_teen_unselected df g df' g' i col c :
  update_teen_platforms_and_time float_of_str df g = Some (df', g') →
  (∀ v, get_cell df "age" i = Some v → isin expanded_ages v = false) →
  df !! col = Some c →
  get_cell df' col i = c !! i.
Proof.
  intros H Hv Hc.
  apply update_teen_inv in H as (ages & df1 & g1 & Hages & H1 & H2).
  pose proof (NoDup_index_where (isin expanded_ages <$> ages)) as Hnd.
  destruct (cell_loop "social_platform_preference" _ _
              (update_platform_spec float_of_str)
              (platform_post_stable float_of_str) _ _ _ _ _ Hnd H1)
    as (Hfr1 & Hs1 & _ & Hout1 & _).
  destruct (cell_loop "daily_social_media_time" _ _
              (update_time_spec float_of_str)
              (time_post_stable float_of_str) _ _ _ _ _ Hnd H2)
    as (Hfr2 & Hs2 & _ & Hout2 & _).
  assert (Hni : i ∉ index_where (isin expanded_ages <$> ages)).
  { rewrite elem_of_index_where, isin_mask_lookup. intros (v & Hi & Ht).
    rewrite (Hv v) in Ht; [done|]. unfold get_cell. by rewrite Hages. }
  destruct (decide (col = "daily_social_media_time")) as [->|Hne2].
  { rewrite get_cell_column.
    - rewrite Hout2 by done.
      rewrite (column_or_nan_congr df df1) by (by apply Hfr1).
      unfold column_or_nan. by rewrite Hc.
    - apply Hs2. rewrite Hfr1 by done. by eexists. }
  rewrite (get_cell_congr df1 df') by (by apply Hfr2).
  destruct (decide (col = "social_platform_preference")) as [->|Hne1].
  { rewrite get_cell_column by (apply Hs1; by eexists).
    rewrite Hout1 by done. unfold column_or_nan. by rewrite Hc. }
  rewrite (get_cell_congr df df1) by (by apply Hfr1).
  unfold get_cell. by rewrite Hc.
Qed.

(** Rows inside the mask: the platform comes from the age group's label
    list and the time from the range of that group and platform. *)
Lemma update_teen_selected df g df' g' i q :
  frame_ok df →
  update_teen_platforms_and_time float_of_str df g = Some (df', g') →
  get_cell df "age" i = Some (VNum q) →
  isin expanded_ages (VNum q) = true →
  ∃ grp spec s lo hi t,
    teen_age_group_of q = Some grp ∧
    AGE_PLATFORM_PROBABILITIES !! grp = Some spec ∧
    get_cell df' "social_platform_preference" i = Some (VStr s) ∧
    s ∈ platforms spec ∧
    time_range grp (VStr s) = Some (lo, hi) ∧
    get_cell df' "daily_social_media_time" i = Some (VNum t) ∧
    (lo <= t <= hi)%Q.
Proof.
  intros Hok H Hage Hin.
  apply update_teen_inv in H as (ages & df1 & g1 & Hages & H1 & H2).
  pose proof (NoDup_index_where (isin expanded_ages <$> ages)) as Hnd.
  destruct (cell_loop "social_platform_preference" _ _
              (update_platform_spec float_of_str)
              (platform_post_stable float_of_str) _ _ _ _ _ Hnd H1)
    as (Hfr1 & Hs1 & Hlen1 & Hout1 & Hin1).
  destruct (cell_loop "daily_social_media_time" _ _
              (update_time_spec float_of_str)
              (time_post_stable float_of_str) _ _ _ _ _ Hnd H2)
    as (Hfr2 & Hs2 & Hlen2 & Hout2 & Hin2).
  assert (Hi : i ∈ index_where (isin expanded_ages <$> ages)).
  { rewrite elem_of_index_where, isin_mask_lookup. exists (VNum q).
    split; [|done]. unfold get_cell in Hage. by rewrite Hages in Hage. }
  assert (Hok1 : frame_ok df1).
  { by apply (frame_ok_after_loop df df1 "social_platform_preference"). }
  assert (Hlt : i < nrows df) by (by eapply get_cell_lt).
  assert (Hn1 : nrows df1 = nrows df) by (unfold nrows; by rewrite Hfr1).
  destruct (isin_expanded_group q Hin) as (grp & spec & Hgrp & Hspec).
  destruct (Hin1 i Hi) as (w1 & (age1 & p & gi & gi' & Hage1 & Hp & ->) & Hw1).
  rewrite Hage in Hage1. injection Hage1 as <-.
  destruct (assign_platform_by_teen_age_group _ _ _ _ _ _ _ Hgrp Hspec Hp)
    as (s & -> & Hs).
  specialize (Hw1 ltac:(by rewrite length_column_or_nan)).
  destruct (Hin2 i Hi)
    as (w2 & (age2 & pl & r & gj & gj' & Hage2 & Hpl & Hr & ->) & Hw2).
  rewrite (get_cell_congr df df1) in Hage2 by (by apply Hfr1).
  rewrite Hage in Hage2. injection Hage2 as <-.
  rewrite Hw1 in Hpl. injection Hpl as <-.
  destruct (platform_labels _ _ _ Hspec Hs) as [_ Hne].
  destruct (assign_social_media_time_group _ _ _ _ _ _ _ Hgrp Hne Hr)
    as (lo & hi & t & Htr & -> & Ht).
  simpl in Hw2.
  specialize (Hw2 ltac:(rewrite length_column_or_nan by done; lia)).
  exists grp, spec, s, lo, hi, t. repeat split; try done.
  - by rewrite (get_cell_congr df1 df') by (by apply Hfr2).
  - apply Ht.
  - apply Ht.
Qed.

End TeenPassFacts.

Lemma isin_proper values (q c : Q) :
  (q == c)%Q → isin values (VNum q) = isin values (VNum c).
Proof.
  intros H. simpl. induction values as [|x values IH]; [done|]. simpl.
  rewrite IH. f_equal.
  destruct (Qeq_bool q x) eqn:E1, (Qeq_bool c x) eqn:E2; try done.
  - apply Qeq_bool_iff in E1. apply Qeq_bool_neq in E2. destruct E2. lra.
  - apply Qeq_bool_iff in E2. apply Qeq_bool_neq in E1. destruct E1. lra.
Qed.

Lemma teen_main_inv {gen : Type} `{!PRNG gen} float_of_str
    (df df' : DataFrame) (g g' : gen) :
  Teen.main float_of_str df g = Some (df', g') →
  ∃ df1 g1, Teen.expand_teen_ages df g = Some (df1, g1) ∧
    Teen.update_teen_platforms_and_time float_of_str df1 g1 = Some (df', g').
Proof.
  unfold Teen.main. intros H.
  destruct (Teen.expand_teen_ages df g) as [[df1 g1]|] eqn:E; [|done].
  by exists df1, g1.
Qed.

(** * Properties of the teen pass *)

(** C7: a record of age 16 leaves the teen pass with a platform among
    Instagram, TikTok, Snapchat, Twitter and Facebook, the labels of the
    high-school group; in particular never with Telegram. *)
Theorem teen_age_16_platform {gen : Type} `{!PRNG gen}
    (float_of_str : string → option Q) (df df' : DataFrame) (g g' : gen)
    (i : nat) (q : Q) :
  frame_ok df →
  Teen.main float_of_str df g = Some (df', g') →
  get_cell df "age" i = Some (VNum q) →
  (q == 16)%Q →
  ∃ s, get_cell df' "social_platform_preference" i = Some (VStr s) ∧
       s ∈ ["Instagram"; "TikTok"; "Snapchat"; "Twitter"; "Facebook"] ∧
       s ≠ "Telegram".
Proof.
  intros Hok Hmain Hage Hq.
  apply teen_main_inv in Hmain as (df1 & g1 & Hexp & Hupd).
  assert (Hage1 : get_cell df1 "age" i = Some (VNum q)).
  { rewrite (expand_teen_ages_unselected _ _ _ _ _ Hexp); [done|].
    intros v Hv. rewrite Hage in Hv. injection Hv as <-.
    by rewrite (isin_proper _ _ _ Hq). }
  assert (Hin : isin Teen.expanded_ages (VNum q) = true).
  { by rewrite (isin_proper _ _ _ Hq). }
  destruct (update_teen_selected float_of_str df1 g1 df' g' i q
              (expand_teen_ages_frame_ok _ _ _ _ Hok Hexp) Hupd Hage1 Hin)
    as (grp & spec & s & lo & hi & t & Hgrp & Hspec & Hs & Hel & _).
  rewrite (teen_age_group_of_proper _ _ Hq) in Hgrp.
  injection Hgrp as <-. injection Hspec as <-.
  exists s. split; [done|]. split; [done|].
  intros ->. apply list_elem_of_In in Hel. simpl in Hel.
  repeat (destruct Hel as [? | Hel]; [discriminate|]). done.
Qed.

Lemma teen_age_16_platform_witness :
  ∃ df' g',
    Teen.main Builtins.float_of_str Samples.teen_frame Samples.seed
      = Some (df', g') ∧
    ∃ s, get_cell df' "social_platform_preference" 0 = Some (VStr s) ∧
         s ∈ ["Instagram"; "TikTok"; "Snapchat"; "Twitter"; "Facebook"] ∧
         s ≠ "Telegram".
Proof.
  exists Samples.teen_out.1, Samples.teen_out.2. split; [exact teen_run|].
  apply (teen_age_16_platform Builtins.float_of_str Samples.teen_frame
           Samples.teen_out.1 Samples.seed Samples.teen_out.2 0 16).
  - apply frame_okb_ok. vm_compute. reflexivity.
  - exact teen_run.
  - vm_compute. reflexivity.
  - reflexivity.
Defined.

(** * Range of the sampled values *)

(** C6: in the teen pass the daily social media time of every teen record
    lies in the range configured for its age group and platform (the
    group's fallback range when the platform has no entry); in the
    productivity pass every record is either skipped or receives a
    perceived score between 0 and 10, computed from a gap drawn inside the
    configured gap range of its age group. *)
Theorem sampled_values_in_range {gen : Type} `{!PRNG gen}
    (float_of_str : string → option Q) (str_of_float : Q → string) :
  (∀ (df df' : DataFrame) (g g' : gen) (i : nat) (q : Q),
     frame_ok df →
     Teen.main float_of_str df g = Some (df', g') →
     get_cell df' "age" i = Some (VNum q) →
     isin Teen.expanded_ages (VNum q) = true →
     ∃ grp s lo hi t,
       Teen.teen_age_group_of q = Some grp ∧
       get_cell df' "social_platform_preference" i = Some (VStr s) ∧
       Teen.time_range grp (VStr s) = Some (lo, hi) ∧
       get_cell df' "daily_social_media_time" i = Some (VNum t) ∧
       (lo <= t <= hi)%Q) ∧
  (∀ (rows out : list Row) (g g' : gen) gaps (i : nat) (row row' : Row),
     Productivity.recalibrate_productivity_scores float_of_str str_of_float
       rows g = Some (out, gaps, g') →
     rows !! i = Some row → out !! i = Some row' →
     row' = row ∨
     ∃ age grp cfg actual gap,
       float_of_str (row_get row "age") = Some age ∧
       Productivity.age_group_of age = Some grp ∧
       Productivity.gap_config_of grp = Some cfg ∧
       (Productivity.gap_min cfg <= gap <= Productivity.gap_max cfg)%Q ∧
       row' !! "perceived_productivity_score"
         = Some (str_of_float (Productivity.new_perceived actual gap)) ∧
       (0 <= Productivity.new_perceived actual gap <= 10)%Q).
Proof.
  split.
  - intros df df' g g' i q Hok Hmain Hage Hin.
    apply teen_main_inv in Hmain as (df1 & g1 & Hexp & Hupd).
    assert (Hage1 : get_cell df1 "age" i = Some (VNum q)).
    { rewrite <- Hage. symmetry. apply get_cell_congr.
      by apply (update_teen_frame float_of_str df1 g1 df' g'). }
    destruct (update_teen_selected float_of_str df1 g1 df' g' i q
                (expand_teen_ages_frame_ok _ _ _ _ Hok Hexp) Hupd Hage1 Hin)
      as (grp & spec & s & lo & hi & t & Hgrp & _ & Hs & _ & Htr & Ht & Hr).
    by exists grp, s, lo, hi, t.
  - intros rows out g g' gaps i row row' Hpass Hrow Hout.
    apply recalibrate_pass_inv in Hpass as (means & _ & Hfor).
    destruct (for_each_lookup _ _ _ _ _ _ _ Hfor Hrow)
      as (b & gi & gi' & Hb & Hf).
    rewrite Hout in Hb. injection Hb as <-.
    apply recalibrate_row_inv in Hf.
    destruct Hf as [-> _ | age grp cfg actual row1 Hage Hgrp Hcfg _ gap -> _];
      [by left | right].
    exists age, grp, cfg, actual, gap. repeat split; try done.
    + apply uniform_range. by eapply gap_config_of_ordered.
    + apply uniform_range. by eapply gap_config_of_ordered.
    + by rewrite lookup_insert_eq.
    + apply py_clamp_range.
    + apply py_clamp_range.
Qed.

Lemma sampled_values_in_range_witness :
  (∃ df' g' grp s lo hi t,
     Teen.main Builtins.float_of_str Samples.teen_frame Samples.seed
       = Some (df', g') ∧
     Teen.teen_age_group_of 16 = Some grp ∧
     get_cell df' "social_platform_preference" 0 = Some (VStr s) ∧
     Teen.time_range grp (VStr s) = Some (lo, hi) ∧
     get_cell df' "daily_social_media_time" 0 = Some (VNum t) ∧
     (lo <= t <= hi)%Q) ∧
  (∃ out gaps g' row',
     Productivity.recalibrate_productivity_scores Builtins.float_of_str
       Builtins.str_of_float Samples.productivity_rows Samples.seed
       = Some (out, gaps, g') ∧
     out !! 0 = Some row' ∧
     (row' = Samples.near_top_row ∨
      ∃ v, row' !! "perceived_productivity_score"
             = Some (Builtins.str_of_float v) ∧ (0 <= v <= 10)%Q)).
Proof.
  pose proof (sampled_values_in_range (gen := Z) Builtins.float_of_str
                Builtins.str_of_float) as [Hteen Hprod].
  split.
  - destruct (Hteen Samples.teen_frame Samples.teen_out.1 Samples.seed
                Samples.teen_out.2 0 16%Q)
      as (grp & s & lo & hi & t & Hgrp & Hs & Htr & Ht & Hr).
    + apply frame_okb_ok. vm_compute. reflexivity.
    + exact teen_run.
    + vm_compute. reflexivity.
    + reflexivity.
    + exists Samples.teen_out.1, Samples.teen_out.2, grp, s, lo, hi, t.
      split; [exact teen_run|].
      repeat split; (exact Hgrp || exact Hs || exact Htr || exact Ht || apply Hr).
  - exists Samples.productivity_out.1.1, Samples.productivity_out.1.2,
      Samples.productivity_out.2.
    exists (default ∅ (Samples.productivity_out.1.1 !! 0)).
    assert (Hrow' : Samples.productivity_out.1.1 !! 0
                    = Some (default ∅ (Samples.productivity_out.1.1 !! 0)))
      by (vm_compute; reflexivity).
    split; [exact productivity_run|]. split; [exact Hrow'|].
    destruct (Hprod Samples.productivity_rows Samples.productivity_out.1.1
                Samples.seed Samples.productivity_out.2
                Samples.productivity_out.1.2 0 Samples.near_top_row
                (default ∅ (Samples.productivity_out.1.1 !! 0))
                productivity_run eq_refl Hrow')
      as [Heq|(age & grp & cfg & actual & gap & _ & _ & _ & _ & Hp & Hr)].
    + left. exact Heq.
    + right. by eexists.
Defined.

(** * Field scope of the passes *)

(** C4: each pass preserves the number and order of the records and
    changes only its target fields: the platform pass
    social_platform_preference, the job-type pass job_type, the teen pass
    age, social_platform_preference and daily_social_media_time, the
    productivity pass actual_productivity_score and
    perceived_productivity_score. *)
Theorem passes_change_only_their_targets {gen : Type} `{!PRNG gen}
    (float_of_str : string → option Q) (str_of_float : Q → string)
    (int_of_str : string → option Z) :
  (∀ (rows out : list Row) (g g' : gen),
     Platforms.correct_csv_platforms float_of_str rows g = Some (out, g') →
     length out = length rows ∧
     ∀ i row row' k, rows !! i = Some row → out !! i = Some row' →
       k ≠ "social_platform_preference" → row' !! k = row !! k) ∧
  (∀ (df df' : DataFrame) (g g' : gen),
     JobTypes.fix_job_types int_of_str df g = Some (df', g') →
     ∀ col, col ≠ "job_type" → df' !! col = df !! col) ∧
  (∀ (df df' : DataFrame) (g g' : gen),
     Teen.main float_of_str df g = Some (df', g') →
     ∀ col, col ≠ "age" → col ≠ "social_platform_preference" →
       col ≠ "daily_social_media_time" → df' !! col = df !! col) ∧
  (∀ (rows out : list Row) (g g' : gen) gaps,
     Productivity.recalibrate_productivity_scores float_of_str str_of_float
       rows g = Some (out, gaps, g') →
     length out = length rows ∧
     ∀ i row row' k, rows !! i = Some row → out !! i = Some row' →
       k ≠ "actual_productivity_score" →
       k ≠ "perceived_productivity_score" → row' !! k = row !! k).
Proof.
  split; [|split; [|split]].
  - intros rows out g g' H. split; [by eapply for_each_length|].
    intros i row row' k Hrow Hout Hk.
    destruct (for_each_lookup _ _ _ _ _ _ _ H Hrow) as (b & gi & gi' & Hb & Hf).
    rewrite Hout in Hb. injection Hb as <-.
    by eapply correct_row_frame.
  - intros df df' g g' H col Hcol.
    apply fix_job_types_inv in H as (ages & jobs & _ & _ & ->).
    by rewrite lookup_insert_ne.
  - intros df df' g g' H col Hc1 Hc2 Hc3.
    apply teen_main_inv in H as (df1 & g1 & Hexp & Hupd).
    rewrite (update_teen_frame float_of_str df1 g1 df' g' col Hupd) by done.
    apply expand_teen_ages_inv in Hexp as (ages & new & _ & ->).
    by rewrite lookup_insert_ne.
  - intros rows out g g' gaps H.
    apply recalibrate_pass_inv in H as (means & _ & Hfor).
    split; [by eapply for_each_length|].
    intros i row row' k Hrow Hout Hk1 Hk2.
    destruct (for_each_lookup _ _ _ _ _ _ _ Hfor Hrow)
      as (b & gi & gi' & Hb & Hf).
    rewrite Hout in Hb. injection Hb as <-.
    by eapply recalibrate_row_frame.
Qed.

Lemma passes_change_only_their_targets_witness :
  (∃ out g',
     Platforms.correct_csv_platforms Builtins.float_of_str
       Samples.platform_rows Samples.seed = Some (out, g') ∧
     length out = 3 ∧
     ∀ row', out !! 1 = Some row' → row' !! "gender" = Some "Female") ∧
  (∃ df' g',
     JobTypes.fix_job_types Builtins.int_of_str Samples.jobs_frame
       Samples.seed = Some (df', g') ∧
     df' !! "gender" = Samples.jobs_frame !! "gender") ∧
  (∃ df' g',
     Teen.main Builtins.float_of_str Samples.teen_frame Samples.seed
       = Some (df', g') ∧
     df' !! "gender" = Samples.teen_frame !! "gender") ∧
  (∃ out gaps g',
     Productivity.recalibrate_productivity_scores Builtins.float_of_str
       Builtins.str_of_float Samples.productivity_rows Samples.seed
       = Some (out, gaps, g') ∧
     length out = 5 ∧
     ∀ row', out !! 0 = Some row' → row' !! "job_type" = Some "Student").
Proof.
  pose proof (passes_change_only_their_targets (gen := Z)
                Builtins.float_of_str Builtins.str_of_float
                Builtins.int_of_str) as (Hplat & Hjob & Hteen & Hprod).
  repeat split.
  - exists Samples.platform_out.1, Samples.platform_out.2.
    split; [exact platform_run|].
    destruct (Hplat _ _ _ _ platform_run) as [Hlen Hfr].
    split; [exact Hlen|].
    intros row' Hrow'.
    rewrite (Hfr 1 _ row' "gender" eq_refl Hrow'); [reflexivity | discriminate].
  - exists Samples.jobs_out.1, Samples.jobs_out.2. split; [exact jobs_run|].
    apply (Hjob _ _ _ _ jobs_run). discriminate.
  - exists Samples.teen_out.1, Samples.teen_out.2. split; [exact teen_run|].
    apply (Hteen _ _ _ _ teen_run); discriminate.
  - exists Samples.productivity_out.1.1, Samples.productivity_out.1.2,
      Samples.productivity_out.2.
    split; [exact productivity_run|].
    destruct (Hprod _ _ _ _ _ productivity_run) as [Hlen Hfr].
    split; [exact Hlen|].
    intros row' Hrow'.
    rewrite (Hfr 0 _ row' "job_type" eq_refl Hrow'); [reflexivity | discriminate..].
Defined.

(** * Ages outside every bucket *)

Lemma teen_group_none_not_selected (q : Q) :
  Teen.teen_age_group_of q = None → isin Teen.expanded_ages (VNum q) = false.
Proof.
  intros Hnone. destruct (isin Teen.expanded_ages (VNum q)) eqn:E; [|done].
  apply isin_expanded_group in E as (grp & spec & Hgrp & _). congruence.
Qed.

(** C2, as the code has it: a record whose age is present but in none of
    the pass's buckets is skipped by the productivity pass and by the teen
    pass (every field keeps its value), whereas the platform pass
    overwrites its social_platform_preference with the empty string and
    keeps the other fields. *)
Theorem bucket_miss_policy {gen : Type} `{!PRNG gen}
    (float_of_str : string → option Q) (str_of_float : Q → string) :
  (∀ (rows out : list Row) (g g' : gen) gaps (i : nat) (row : Row) (a : Q),
     Productivity.recalibrate_productivity_scores float_of_str str_of_float
       rows g = Some (out, gaps, g') →
     rows !! i = Some row →
     float_of_str (row_get row "age") = Some a →
     Productivity.age_group_of a = None →
     out !! i = Some row) ∧
  (∀ (df df' : DataFrame) (g g' : gen) (i : nat) (q : Q) col c,
     Teen.main float_of_str df g = Some (df', g') →
     get_cell df "age" i = Some (VNum q) →
     Teen.teen_age_group_of q = None →
     df !! col = Some c →
     get_cell df' col i = c !! i) ∧
  (∀ (rows out : list Row) (g g' : gen) (i : nat) (row : Row) (a : Q),
     Platforms.correct_csv_platforms float_of_str rows g = Some (out, g') →
     rows !! i = Some row →
     row_get row "age" ≠ "" →
     float_of_str (row_get row "age") = Some a →
     Platforms.age_group_of a = None →
     out !! i = Some (<["social_platform_preference" := ""]> row)).
Proof.
  repeat split.
  - intros rows out g g' gaps i row a Hpass Hrow Ha Hgrp.
    apply recalibrate_pass_inv in Hpass as (means & _ & Hfor).
    destruct (for_each_lookup _ _ _ _ _ _ _ Hfor Hrow)
      as (b & gi & gi' & Hb & Hf).
    rewrite (recalibrate_row_bucket_miss float_of_str str_of_float
               means row gi a Ha Hgrp) in Hf.
    by simplify_eq.
  - intros df df' g g' i q col c Hmain Hage Hnone Hc.
    apply teen_group_none_not_selected in Hnone as Hsel.
    apply teen_main_inv in Hmain as (df1 & g1 & Hexp & Hupd).
    assert (Hage1 : get_cell df1 "age" i = Some (VNum q)).
    { rewrite (expand_teen_ages_unselected _ _ _ _ _ Hexp); [done|].
      intros v Hv. rewrite Hage in Hv. injection Hv as <-.
      destruct (isin Teen.original_teen_ages (VNum q)) eqn:E; [|done].
      apply isin_original_expanded in E. congruence. }
    assert (Hsel1 : ∀ v, get_cell df1 "age" i = Some v →
                         isin Teen.expanded_ages v = false).
    { intros v Hv. rewrite Hage1 in Hv. by injection Hv as <-. }
    destruct (decide (col = "age")) as [->|Hne].
    + destruct (df1 !! "age") as [c1|] eqn:Hc1;
        [|unfold get_cell in Hage1; by rewrite Hc1 in Hage1].
      rewrite (update_teen_unselected float_of_str df1 g1 df' g' i "age" c1
                 Hupd Hsel1 Hc1).
      unfold get_cell in Hage1, Hage. rewrite Hc1 in Hage1. rewrite Hc in Hage.
      simpl in *. congruence.
    + apply (update_teen_unselected float_of_str df1 g1 df' g' i col c
               Hupd Hsel1).
      apply expand_teen_ages_inv in Hexp as (ages & new & _ & ->).
      by rewrite lookup_insert_ne.
  - intros rows out g g' i row a Hpass Hrow Hne Ha Hgrp.
    destruct (for_each_lookup _ _ _ _ _ _ _ Hpass Hrow)
      as (b & gi & gi' & Hb & Hf).
    rewrite (correct_row_bucket_miss float_of_str row gi a Ha Hne Hgrp) in Hf.
    by simplify_eq.
Qed.

Lemma bucket_miss_policy_witness :
  (∃ out gaps g',
     Productivity.recalibrate_productivity_scores Builtins.float_of_str
       Builtins.str_of_float Samples.productivity_rows Samples.seed
       = Some (out, gaps, g') ∧
     out !! 1 = Some Samples.between_groups_row) ∧
  (∃ df' g',
     Teen.main Builtins.float_of_str Samples.teen_frame Samples.seed
       = Some (df', g') ∧
     get_cell df' "social_platform_preference" 2 = Some (VStr "Telegram")) ∧
  (∃ out g',
     Platforms.correct_csv_platforms Builtins.float_of_str
       Samples.platform_rows Samples.seed = Some (out, g') ∧
     out !! 0 = Some (<["social_platform_preference" := ""]> Samples.minor_row)).
Proof.
  pose proof (bucket_miss_policy (gen := Z) Builtins.float_of_str
                Builtins.str_of_float) as (Hprod & Hteen & Hplat).
  repeat split.
  - exists Samples.productivity_out.1.1, Samples.productivity_out.1.2,
      Samples.productivity_out.2.
    split; [exact productivity_run|].
    apply (Hprod _ _ _ _ _ 1 _ (39 # 2)%Q productivity_run); reflexivity.
  - exists Samples.teen_out.1, Samples.teen_out.2. split; [exact teen_run|].
    apply (Hteen Samples.teen_frame Samples.teen_out.1 Samples.seed
             Samples.teen_out.2 2 30%Q "social_platform_preference"
             [VStr "Facebook"; VStr "Telegram"; VStr "Telegram"; VStr "Twitter"]
             teen_run); reflexivity.
  - exists Samples.platform_out.1, Samples.platform_out.2.
    split; [exact platform_run|].
    apply (Hplat _ _ _ _ 0 _ 17%Q platform_run);
      [reflexivity | discriminate | reflexivity..].
Defined.

(** The claim C2 as the specification states it fails on both passes it
    names: with age 17 the platform pass replaces Facebook by the empty
    string, and the job-type pass replaces Student by a draw from its
    catch-all branch. *)
Lemma bucket_miss_overwrites_target :
  Builtins.float_of_str (row_get Samples.minor_row "age") = Some 17%Q ∧
  Platforms.age_group_of 17 = None ∧
  Samples.minor_row !! "social_platform_preference" = Some "Facebook" ∧
  (∃ row' g',
     Platforms.correct_csv_platforms Builtins.float_of_str
       [Samples.minor_row] Samples.seed = Some ([row'], g') ∧
     row' !! "social_platform_preference" = Some "") ∧
  get_cell Samples.minor_frame "job_type" 0 = Some (VStr "Student") ∧
  (∃ df' g',
     JobTypes.fix_job_types Builtins.int_of_str Samples.minor_frame
       Samples.seed = Some (df', g') ∧
     get_cell df' "job_type" 0 = Some (VStr "Unemployed")).
Proof.
  repeat split.
  - exists (<["social_platform_preference" := ""]> Samples.minor_row),
      Samples.minor_platform_out.2.
    split; [|reflexivity].
    rewrite minor_platform_run. vm_compute. reflexivity.
  - exists Samples.minor_jobs_out.1, Samples.minor_jobs_out.2.
    split; [exact minor_jobs_run|]. vm_compute. reflexivity.
Qed.

(** * The bucket tables *)

(** Case analysis on the comparisons of a bucket chain. *)
Ltac case_Qcmp :=
  repeat match goal with
  | |- context [Qle_bool ?a ?b] =>
      let E := fresh "E" in
      destruct (Qle_bool a b) eqn:E;
      [apply Qle_bool_iff in E | apply Qle_bool_false in E]; cbn [andb]
  | |- context [Qltb ?a ?b] =>
      let E := fresh "E" in
      destruct (Qltb a b) eqn:E;
      [apply Qltb_true in E | apply Qltb_false in E]; cbn [andb]
  end.

Lemma Qle_bool_inject_Z_r (a : Z) (z : Z) :
  Qle_bool (a # 1) (inject_Z z) = (a <=? z)%Z.
Proof. unfold Qle_bool; simpl. by rewrite !Z.mul_1_r. Qed.

Lemma Qle_bool_inject_Z_l (a : Z) (z : Z) :
  Qle_bool (inject_Z z) (a # 1) = (z <=? a)%Z.
Proof. unfold Qle_bool; simpl. by rewrite !Z.mul_1_r. Qed.

Lemma productivity_ranges_disjoint (age : Q) kv1 kv2 :
  kv1 ∈ Productivity.AGE_GROUP_GAPS → kv2 ∈ Productivity.AGE_GROUP_GAPS →
  Productivity.in_range kv1.2 age = true →
  Productivity.in_range kv2.2 age = true →
  kv1 = kv2.
Proof.
  unfold Productivity.AGE_GROUP_GAPS, Productivity.in_range.
  intros H1 H2.
  repeat (apply elem_of_cons in H1 as [-> | H1]);
    [..|by apply elem_of_nil in H1];
    (repeat (apply elem_of_cons in H2 as [-> | H2]);
     [..|by apply elem_of_nil in H2]);
    simpl; rewrite !andb_true_iff, !Qle_bool_iff;
    intros [? ?] [? ?]; (reflexivity || (unfold inject_Z in *; lra)).
Qed.

Lemma productivity_age_group_of_spec (age : Q) (k : string) :
  Productivity.age_group_of age = Some k ↔
  ∃ cfg, (k, cfg) ∈ Productivity.AGE_GROUP_GAPS ∧
         Productivity.in_range cfg age = true.
Proof.
  split.
  - unfold Productivity.age_group_of. intros H.
    destruct (List.find _ _) as [[k' cfg]|] eqn:E; [|done].
    simpl in H. injection H as ->.
    apply find_some in E as [Hin Hr]. exists cfg.
    split; [by apply list_elem_of_In | done].
  - intros (cfg & Hin & Hr).
    unfold Productivity.age_group_of.
    destruct (List.find (λ kv, Productivity.in_range kv.2 age)
                Productivity.AGE_GROUP_GAPS) as [kv|] eqn:E.
    + apply find_some in E as [Hin' Hr']. apply list_elem_of_In in Hin'.
      by rewrite (productivity_ranges_disjoint age kv (k, cfg) Hin' Hin Hr' Hr).
    + apply list_elem_of_In in Hin.
      pose proof (find_none _ _ E _ Hin) as Hn. simpl in Hn. congruence.
Qed.

Lemma productivity_integer_ages_covered (z : Z) :
  (18 <= z <= 65)%Z → is_Some (Productivity.age_group_of (inject_Z z)).
Proof.
  intros Hz.
  assert (Hin : ∀ k cfg, (k, cfg) ∈ Productivity.AGE_GROUP_GAPS →
            ((Productivity.range cfg).1 <= z <= (Productivity.range cfg).2)%Z →
            is_Some (Productivity.age_group_of (inject_Z z))).
  { intros k cfg Hk [Hlo Hhi]. exists k.
    apply productivity_age_group_of_spec. exists cfg. split; [done|].
    unfold Productivity.in_range.
    rewrite andb_true_iff, !Qle_bool_iff, <- !Zle_Qle. done. }
  unfold Productivity.AGE_GROUP_GAPS in Hin.
  assert (Hc : (z <= 19 ∨ 20 <= z <= 29 ∨ 30 <= z <= 39 ∨ 40 <= z <= 55
                ∨ 56 <= z)%Z) by lia.
  destruct Hc as [?|[?|[?|[?|?]]]].
  - eapply (Hin "teen"); [by left | simpl; lia].
  - eapply (Hin "young_adult"); [right; by left | simpl; lia].
  - eapply (Hin "adult"); [do 2 right; by left | simpl; lia].
  - eapply (Hin "middle_aged"); [do 3 right; by left | simpl; lia].
  - eapply (Hin "senior"); [do 4 right; by left | simpl; lia].
Qed.

Lemma teen_age_group_of_spec (q : Q) :
  (Teen.teen_age_group_of q = Some "early_teen" ↔ (13 <= q <= 14)%Q) ∧
  (Teen.teen_age_group_of q = Some "high_school" ↔ (15 <= q <= 17)%Q) ∧
  (Teen.teen_age_group_of q = Some "college_freshman" ↔ (18 <= q <= 19)%Q) ∧
  (Teen.teen_age_group_of q = None ∨
   Teen.teen_age_group_of q = Some "early_teen" ∨
   Teen.teen_age_group_of q = Some "high_school" ∨
   Teen.teen_age_group_of q = Some "college_freshman").
Proof.
  unfold Teen.teen_age_group_of. case_Qcmp; simpl;
    repeat split; try (intros; (discriminate || lra));
    try (intros [? ?]; lra); tauto.
Qed.

Lemma teen_integer_ages_covered (z : Z) :
  (13 <= z <= 19)%Z → is_Some (Teen.teen_age_group_of (inject_Z z)).
Proof.
  intros Hz.
  destruct (teen_age_group_of_spec (inject_Z z)) as (H1 & H2 & H3 & _).
  assert (Hc : (z <= 14 ∨ 15 <= z <= 17 ∨ 18 <= z)%Z) by lia.
  destruct Hc as [?|[?|?]].
  - exists "early_teen". apply H1.
    change 13%Q with (inject_Z 13). change 14%Q with (inject_Z 14).
    rewrite <- !Zle_Qle. lia.
  - exists "high_school". apply H2.
    change 15%Q with (inject_Z 15). change 17%Q with (inject_Z 17).
    rewrite <- !Zle_Qle. lia.
  - exists "college_freshman". apply H3.
    change 18%Q with (inject_Z 18). change 19%Q with (inject_Z 19).
    rewrite <- !Zle_Qle. lia.
Qed.

Lemma platform_age_group_of_spec (q : Q) :
  (Platforms.age_group_of q = Some "teen" ↔ (18 <= q < 20)%Q) ∧
  (Platforms.age_group_of q = Some "young_adult" ↔ (20 <= q < 30)%Q) ∧
  (Platforms.age_group_of q = Some "adult" ↔ (30 <= q < 40)%Q) ∧
  (Platforms.age_group_of q = Some "middle_aged" ↔ (40 <= q < 50)%Q) ∧
  (Platforms.age_group_of q = Some "mature_adult" ↔ (50 <= q < 60)%Q) ∧
  (Platforms.age_group_of q = Some "senior" ↔ (60 <= q)%Q) ∧
  (Platforms.age_group_of q = None ↔ (q < 18)%Q).
Proof.
  unfold Platforms.age_group_of. case_Qcmp; simpl;
    repeat split; try (intros; (discriminate || lra));
    try (intros [? ?]; lra).
Qed.

(** C3, as the code has it: within each bucket set no age lies in two
    buckets, and a bucket function returns a group exactly when the age
    lies in that group's range.  The half-open ranges of the platform
    pass cover every age from 18 upward, fractional ages included.  The
    productivity pass's five groups and the teen pass's three groups have
    closed integer bounds: they cover every integer age between the lowest
    and the highest bound. *)
Theorem buckets_disjoint_cover_integer_ages :
  (∀ (age : Q) kv1 kv2,
     kv1 ∈ Productivity.AGE_GROUP_GAPS → kv2 ∈ Productivity.AGE_GROUP_GAPS →
     Productivity.in_range kv1.2 age = true →
     Productivity.in_range kv2.2 age = true → kv1 = kv2) ∧
  (∀ (age : Q) (k : string),
     Productivity.age_group_of age = Some k ↔
     ∃ cfg, (k, cfg) ∈ Productivity.AGE_GROUP_GAPS ∧
            Productivity.in_range cfg age = true) ∧
  (∀ z : Z, (18 <= z <= 65)%Z →
     is_Some (Productivity.age_group_of (inject_Z z))) ∧
  (∀ q : Q,
     (Teen.teen_age_group_of q = Some "early_teen" ↔ (13 <= q <= 14)%Q) ∧
     (Teen.teen_age_group_of q = Some "high_school" ↔ (15 <= q <= 17)%Q) ∧
     (Teen.teen_age_group_of q = Some "college_freshman" ↔ (18 <= q <= 19)%Q) ∧
     (Teen.teen_age_group_of q = None ∨
      Teen.teen_age_group_of q = Some "early_teen" ∨
      Teen.teen_age_group_of q = Some "high_school" ∨
      Teen.teen_age_group_of q = Some "college_freshman")) ∧
  (∀ z : Z, (13 <= z <= 19)%Z →
     is_Some (Teen.teen_age_group_of (inject_Z z))) ∧
  (∀ q : Q,
     (Platforms.age_group_of q = Some "teen" ↔ (18 <= q < 20)%Q) ∧
     (Platforms.age_group_of q = Some "young_adult" ↔ (20 <= q < 30)%Q) ∧
     (Platforms.age_group_of q = Some "adult" ↔ (30 <= q < 40)%Q) ∧
     (Platforms.age_group_of q = Some "middle_aged" ↔ (40 <= q < 50)%Q) ∧
     (Platforms.age_group_of q = Some "mature_adult" ↔ (50 <= q < 60)%Q) ∧
     (Platforms.age_group_of q = Some "senior" ↔ (60 <= q)%Q) ∧
     (Platforms.age_group_of q = None ↔ (q < 18)%Q)).
Proof.
  split; [exact productivity_ranges_disjoint|].
  split; [exact productivity_age_group_of_spec|].
  split; [exact productivity_integer_ages_covered|].
  split; [exact teen_age_group_of_spec|].
  split; [exact teen_integer_ages_covered|].
  exact platform_age_group_of_spec.
Qed.

Lemma buckets_disjoint_cover_integer_ages_witness :
  is_Some (Productivity.age_group_of (inject_Z 29)) ∧
  is_Some (Teen.teen_age_group_of (inject_Z 17)) ∧
  Platforms.age_group_of (39 # 2) = Some "teen".
Proof.
  destruct buckets_disjoint_cover_integer_ages
    as (_ & _ & Hprod & _ & Hteen & Hplat).
  split; [apply Hprod; lia|].
  split; [apply Hteen; lia|].
  apply (Hplat (39 # 2)%Q). split; reflexivity || discriminate.
Defined.

(** The claim C3 as the specification states it fails: the ages 19.5 and
    14.5 lie between the lowest and the highest bound of the productivity
    and teen tables, yet in no group of them. *)
Lemma fractional_ages_fall_between_groups :
  (18 <= 39 # 2 <= 65)%Q ∧ Productivity.age_group_of (39 # 2) = None ∧
  (13 <= 29 # 2 <= 19)%Q ∧ Teen.teen_age_group_of (29 # 2) = None.
Proof.
  repeat split; reflexivity || discriminate.
Qed.

(** * Further properties of the job-type pass *)

Lemma elem_of_sublist_bool (l1 l2 : list string) (x : string) :
  forallb (λ y, bool_decide (y ∈ l2)) l1 = true → x ∈ l1 → x ∈ l2.
Proof.
  rewrite forallb_forall. intros H Hx.
  apply list_elem_of_In, H in Hx. by apply bool_decide_eq_true in Hx.
Qed.

Section JobTypesMore.
Context {gen : Type} `{!PRNG gen}.
Variable int_of_str : string → option Z.

Import JobTypes.

Lemma assign_realistic_job_labels age g job g' :
  assign_realistic_job int_of_str age g = Some (job, g') →
  job ∈ ["Student"; "Unemployed"; "IT"; "Other"; "Finance"; "Health";
         "Education"].
Proof.
  unfold assign_realistic_job.
  destruct (isna age); [intros [= <- _]; by left|].
  destruct (int_of_value int_of_str age) as [a|]; [simpl | done].
  repeat case_match;
    intros Hc; apply np_choice_elem in Hc as [Hc _];
    revert Hc; by apply elem_of_sublist_bool.
Qed.

Lemma assign_realistic_job_catch_all age a g job g' :
  int_of_value int_of_str age = Some a → (a < 18 ∨ 65 < a)%Z →
  assign_realistic_job int_of_str age g = Some (job, g') →
  job ∈ ["Unemployed"; "Finance"; "Health"; "Education"].
Proof.
  intros Ha Hr. unfold assign_realistic_job.
  destruct age as [q|s|]; [| |done]; cbn [isna]; rewrite Ha; simpl;
    (rewrite !bool_decide_eq_false_2
       by (rewrite !elem_of_cons, elem_of_nil; lia));
    (repeat match goal with
     | |- context [(?x <=? ?y)%Z] => destruct (Z.leb_spec x y); try lia
     end); simpl;
    intros Hc; by apply np_choice_elem in Hc as [Hc _].
Qed.

Lemma assign_realistic_job_gen age g job g' :
  assign_realistic_job int_of_str age g = Some (job, g') →
  g' = if isna age then g else (random_sample g).2.
Proof.
  unfold assign_realistic_job.
  destruct (isna age); [by intros [= _ <-]|].
  destruct (int_of_value int_of_str age) as [a|]; [simpl | done].
  repeat case_match; intros Hc; by apply np_choice_elem in Hc as [_ Hc].
Qed.

Lemma assign_realistic_job_Some_inv age g :
  is_Some (assign_realistic_job int_of_str age g) →
  age = VNaN ∨ is_Some (int_of_value int_of_str age).
Proof.
  unfold assign_realistic_job. intros Hs.
  destruct age as [q|s|]; [| |by left]; cbn [isna] in Hs; right.
  - by eexists.
  - destruct (int_of_value int_of_str (VStr s)); [by eexists|].
    simpl in Hs. by destruct Hs.
Qed.

End JobTypesMore.

(** X1: after the job-type pass every job_type cell holds one of the seven
    labels the pass samples from; none of the obsolete labels Healthcare,
    Marketing, Manufacturing, Freelancer survives. *)
Theorem job_types_closed_label_set {gen : Type} `{!PRNG gen}
    (int_of_str : string → option Z) (df df' : DataFrame) (g g' : gen)
    (i : nat) (v : value) :
  JobTypes.fix_job_types int_of_str df g = Some (df', g') →
  get_cell df' "job_type" i = Some v →
  ∃ job, v = VStr job ∧
    job ∈ ["Student"; "Unemployed"; "IT"; "Other"; "Finance"; "Health";
           "Education"] ∧
    job ∉ JobTypes.obsolete_jobs.
Proof.
  intros Hpass Hv.
  apply fix_job_types_inv in Hpass as (ages & jobs & _ & Hfor & ->).
  unfold get_cell in Hv. rewrite lookup_insert_eq in Hv. simpl in Hv.
  destruct (for_each_lookup_inv _ _ _ _ _ _ _ Hfor Hv)
    as (age & gi & gi' & _ & Hcell).
  apply assign_cell_inv in Hcell as (job & -> & Hjob).
  exists job. split; [done|].
  apply assign_realistic_job_labels in Hjob. split; [done|].
  intros Hbad. apply list_elem_of_In in Hjob, Hbad. simpl in Hjob, Hbad.
  repeat (destruct Hjob as [<- | Hjob];
    [repeat (destruct Hbad as [? | Hbad]; [discriminate|]); done|]).
  done.
Qed.

Lemma job_types_closed_label_set_witness :
  ∃ job, get_cell Samples.jobs_out.1 "job_type" 3 = Some (VStr job) ∧
    get_cell Samples.jobs_frame "job_type" 3 = Some (VStr "Healthcare") ∧
    job ∈ ["Student"; "Unemployed"; "IT"; "Other"; "Finance"; "Health";
           "Education"] ∧
    job ∉ JobTypes.obsolete_jobs.
Proof.
  destruct (job_types_closed_label_set Builtins.int_of_str Samples.jobs_frame
              Samples.jobs_out.1 Samples.seed Samples.jobs_out.2 3
              (VStr "Education") jobs_run)
    as (job & Hv & Hin & Hout); [vm_compute; reflexivity|].
  exists job. injection Hv as <-.
  split; [vm_compute; reflexivity|]. split; [vm_compute; reflexivity|].
  split; [exact Hin | exact Hout].
Defined.

(** X2: a record whose age truncates below 18 or above 65 falls into the
    final branch of [assign_realistic_job]: its job type is drawn from
    Unemployed, Finance, Health and Education, so it is never Student. *)
Theorem job_types_outside_working_ages {gen : Type} `{!PRNG gen}
    (int_of_str : string → option Z) (df df' : DataFrame) (g g' : gen)
    (i : nat) (age : value) (a : Z) :
  JobTypes.fix_job_types int_of_str df g = Some (df', g') →
  get_cell df' "age" i = Some age →
  JobTypes.int_of_value int_of_str age = Some a →
  (a < 18 ∨ 65 < a)%Z →
  ∃ job, get_cell df' "job_type" i = Some (VStr job) ∧
         job ∈ ["Unemployed"; "Finance"; "Health"; "Education"] ∧
         job ≠ "Student".
Proof.
  intros Hpass Hage Ha Hr.
  destruct (fix_job_types_cell _ _ _ _ _ _ _ Hpass Hage)
    as (job & gi & gi' & Hjob & Hassign).
  exists job. split; [done|].
  pose proof (assign_realistic_job_catch_all _ _ _ _ _ _ Ha Hr Hassign) as Hin.
  split; [done|]. intros ->.
  apply list_elem_of_In in Hin. simpl in Hin.
  repeat (destruct Hin as [? | Hin]; [discriminate|]). done.
Qed.

Lemma job_types_outside_working_ages_witness :
  ∃ job, get_cell Samples.minor_jobs_out.1 "job_type" 0 = Some (VStr job) ∧
         job ∈ ["Unemployed"; "Finance"; "Health"; "Education"] ∧
         job ≠ "Student".
Proof.
  apply (job_types_outside_working_ages Builtins.int_of_str
           Samples.minor_frame Samples.minor_jobs_out.1 Samples.seed
           Samples.minor_jobs_out.2 0 (VNum 17) 17 minor_jobs_run).
  - vm_compute. reflexivity.
  - reflexivity.
  - lia.
Defined.

(** X3: the job-type pass overwrites job_type without reading it: the
    frame written does not depend on the job types of the frame read. *)
Theorem fix_job_types_ignores_old_job_types {gen : Type} `{!PRNG gen}
    (int_of_str : string → option Z) (df : DataFrame) (jobs : list value)
    (g : gen) :
  is_Some (df !! "job_type") →
  JobTypes.fix_job_types int_of_str (<["job_type" := jobs]> df) g
    = JobTypes.fix_job_types int_of_str df g.
Proof.
  intros [c Hc]. unfold JobTypes.fix_job_types.
  rewrite (lookup_insert_ne df "job_type" "age") by done.
  rewrite lookup_insert_eq, Hc.
  destruct (df !! "age") as [ages|]; [simpl | done].
  destruct (for_each _ ages g) as [[new g']|]; [simpl | done].
  by rewrite insert_insert_eq.
Qed.

Lemma fix_job_types_ignores_old_job_types_witness :
  JobTypes.fix_job_types Builtins.int_of_str
    (<["job_type" := [VStr "Freelancer"; VStr "IT"; VNaN; VStr "Other";
                      VStr "Marketing"]]> Samples.jobs_frame) Samples.seed
  = Some Samples.jobs_out.
Proof.
  rewrite (fix_job_types_ignores_old_job_types Builtins.int_of_str
             Samples.jobs_frame _ Samples.seed); [exact jobs_run|].
  vm_compute. by eexists.
Defined.

(** X4: the job-type pass raises exactly when the frame lacks the age or
    the job_type column, or when some age cell is present but cannot be
    converted by [int]. *)
Theorem fix_job_types_succeeds_iff {gen : Type} `{!PRNG gen}
    (int_of_str : string → option Z) (df : DataFrame) (g : gen) :
  is_Some (JobTypes.fix_job_types int_of_str df g) ↔
  ∃ ages, df !! "age" = Some ages ∧ is_Some (df !! "job_type") ∧
    ∀ age, age ∈ ages →
      age = VNaN ∨ is_Some (JobTypes.int_of_value int_of_str age).
Proof.
  split.
  - intros [[df' g'] Hpass].
    assert (Hjt : is_Some (df !! "job_type")).
    { unfold JobTypes.fix_job_types in Hpass.
      destruct (df !! "age"); [simpl in Hpass | done].
      destruct (df !! "job_type"); [by eexists | done]. }
    apply fix_job_types_inv in Hpass as (ages & jobs & Hages & Hfor & _).
    exists ages. split; [done|]. split; [done|].
    intros age Hin. apply list_elem_of_lookup in Hin as [i Hi].
    destruct (for_each_lookup _ _ _ _ _ _ _ Hfor Hi) as (b & gi & gi' & _ & Hf).
    apply assign_cell_inv in Hf as (job & _ & Hf).
    apply (assign_realistic_job_Some_inv int_of_str age gi). by eexists.
  - intros (ages & Hages & Hjt & Hall).
    by eapply fix_job_types_total.
Qed.

Lemma py_int_of_integer (q : Q) (z : Z) : (q == inject_Z z)%Q → py_int q = z.
Proof.
  unfold Qeq, py_int; simpl. intros H. rewrite Z.mul_1_r in H. rewrite H.
  by apply Z.quot_mul.
Qed.

Lemma mask_sum_zero (mask : list bool) :
  (∀ i, mask !! i ≠ Some true) → mask_sum mask = 0.
Proof.
  induction mask as [|b mask IH]; intros H; [done|]. simpl.
  rewrite IH by (intros i; apply (H (S i))).
  destruct b; [|done]. by destruct (H 0).
Qed.

Lemma isin_critical_age (v : value) :
  isin JobTypesReport.critical_ages v = true →
  ∃ q a, v = VNum q ∧ py_int q = a ∧ (18 <= a <= 22)%Z.
Proof.
  destruct v as [q| |]; [|done..]. intros H.
  apply isin_elem in H as (c & Hc & Heq).
  apply list_elem_of_In in Hc. simpl in Hc.
  exists q, (py_int q). split; [done|]. split; [done|].
  destruct Hc as [<-|[<-|[<-|[<-|[<-|[]]]]]].
  - rewrite (py_int_of_integer q 18); [lia | by rewrite Heq].
  - rewrite (py_int_of_integer q 19); [lia | by rewrite Heq].
  - rewrite (py_int_of_integer q 20); [lia | by rewrite Heq].
  - rewrite (py_int_of_integer q 21); [lia | by rewrite Heq].
  - rewrite (py_int_of_integer q 22); [lia | by rewrite Heq].
Qed.

(** X5: the critical check of [verify_distribution] applied to the frame
    written by [fix_job_types] counts no impossible job. *)
Theorem verify_finds_no_impossible_jobs {gen : Type} `{!PRNG gen}
    (int_of_str : string → option Z) (df df' : DataFrame) (g g' : gen) :
  JobTypes.fix_job_types int_of_str df g = Some (df', g') →
  JobTypesReport.impossible_count df' = Some 0.
Proof.
  intros Hpass.
  apply fix_job_types_inv in Hpass as (ages & jobs & Hages & Hfor & ->).
  unfold JobTypesReport.impossible_count.
  rewrite (lookup_insert_ne df "job_type" "age") by done.
  rewrite Hages, lookup_insert_eq. simpl.
  f_equal. apply mask_sum_zero. intros i Hi.
  unfold JobTypesReport.impossible_mask in Hi.
  rewrite lookup_zip_with, !list_lookup_fmap in Hi.
  destruct (ages !! i) as [age|] eqn:Hage; [simpl in Hi | done].
  destruct (jobs !! i) as [v|] eqn:Hv; [simpl in Hi | done].
  injection Hi as Hi. apply andb_true_iff in Hi as [Hyoung Hbad].
  destruct (for_each_lookup _ _ _ _ _ _ _ Hfor Hage) as (b & gi & gi' & Hb & Hf).
  rewrite Hv in Hb. injection Hb as <-.
  apply assign_cell_inv in Hf as (job & -> & Hf).
  apply isin_critical_age in Hyoung as (q & a & -> & Ha & Hr).
  assert (Hin : job ∈ ["Student"; "Unemployed"; "IT"; "Other"]).
  { eapply (assign_realistic_job_young int_of_str (VNum q) a); [|done..].
    simpl. by rewrite Ha. }
  simpl in Hbad. apply bool_decide_eq_true in Hbad.
  apply list_elem_of_In in Hin, Hbad. simpl in Hin, Hbad.
  destruct Hin as [<-|[<-|[<-|[<-|[]]]]];
    destruct Hbad as [?|[?|[?|[]]]]; discriminate.
Qed.

Lemma verify_finds_no_impossible_jobs_witness :
  JobTypesReport.impossible_count Samples.jobs_frame = Some 1 ∧
  JobTypesReport.impossible_count Samples.jobs_out.1 = Some 0.
Proof.
  split; [vm_compute; reflexivity|].
  exact (verify_finds_no_impossible_jobs Builtins.int_of_str
           Samples.jobs_frame Samples.jobs_out.1 Samples.seed
           Samples.jobs_out.2 jobs_run).
Defined.

(** X6: the job-type pass draws once from the generator for every record
    whose age is present and not at all for a missing age: the generator
    it leaves behind is the one reached after as many draws as there are
    present ages. *)
Theorem fix_job_types_draws_once_per_age {gen : Type} `{!PRNG gen}
    (int_of_str : string → option Z) (df df' : DataFrame) (g g' : gen) :
  JobTypes.fix_job_types int_of_str df g = Some (df', g') →
  ∃ ages, df !! "age" = Some ages ∧
    g' = advance (length (filter (λ v, isna v = false) ages)) g.
Proof.
  intros Hpass.
  apply fix_job_types_inv in Hpass as (ages & jobs & Hages & Hfor & _).
  exists ages. split; [done|]. clear Hages.
  revert g jobs Hfor. induction ages as [|age ages IH]; intros g jobs Hfor.
  - by simplify_eq/=.
  - apply for_each_cons_inv in Hfor as (b & g1 & bs & Hf & Hfor & _).
    apply assign_cell_inv in Hf as (job & _ & Hf).
    apply assign_realistic_job_gen in Hf.
    rewrite (IH _ _ Hfor). rewrite filter_cons.
    destruct (isna age) eqn:E; subst g1.
    + by rewrite decide_False by done.
    + rewrite decide_True by done. simpl length.
      unfold advance. by rewrite Nat.iter_succ_r.
Qed.

Lemma fix_job_types_draws_once_per_age_witness :
  Samples.jobs_out.2 = advance 4 Samples.seed.
Proof.
  destruct (fix_job_types_draws_once_per_age Builtins.int_of_str
              Samples.jobs_frame Samples.jobs_out.1 Samples.seed
              Samples.jobs_out.2 jobs_run) as (ages & Hages & Hg).
  vm_compute in Hages. injection Hages as <-. exact Hg.
Defined.

(** * Further properties of the platform pass *)

Section PlatformsMore.
Context {gen : Type} `{!PRNG gen}.
Variable float_of_str : string → option Q.

Import Platforms.


Lemma assign_platform_by_age_bucket age a k (g : gen) :
  age ≠ "" → float_of_str age = Some a → age_group_of a = Some k →
  ∃ spec, AGE_PLATFORM_PROBABILITIES !! k = Some spec ∧
    assign_platform_by_age float_of_str age g
      = choices (platforms spec) (probabilities spec) g.
Proof.
  intros Hne Ha Hk.
  destruct (age_group_of_table a k Hk) as [spec Hspec].
  exists spec. split; [done|].
  unfold assign_platform_by_age, get_age_group.
  rewrite bool_decide_eq_false_2 by done. rewrite Ha; simpl.
  by rewrite Hk, Hspec.
Qed.


(** What the platform pass leaves in a row: an empty age, or a parsed age
    with either no bucket and an empty platform, or a platform of the
    bucket's list. *)
Definition corrected (row : Row) : Prop :=
  row_get row "age" = "" ∨
  ∃ a, float_of_str (row_get row "age") = Some a ∧
    (age_group_of a = None ∧ row_get row "social_platform_preference" = ""
     ∨ ∃ k spec, age_group_of a = Some k ∧
         AGE_PLATFORM_PROBABILITIES !! k = Some spec ∧
         row_get row "social_platform_preference" ∈ platforms spec).

Lemma correct_row_corrected row (g : gen) row' g' :
  correct_row float_of_str row g = Some (row', g') → corrected row'.
Proof.
  intros H. apply correct_row_inv in H as [(-> & _ & He) | (p & -> & Hp)];
    [by left|].
  unfold corrected, row_get. rewrite lookup_insert_ne by done.
  rewrite lookup_insert_eq. simpl. fold (row_get row "age").
  unfold assign_platform_by_age, get_age_group in Hp.
  destruct (bool_decide (row_get row "age" = "")) eqn:Hb;
    [left; by apply bool_decide_eq_true in Hb|].
  right.
  destruct (float_of_str (row_get row "age")) as [a|]; [simpl in Hp | done].
  exists a. split; [done|].
  destruct (age_group_of a) as [k|] eqn:Hk; [right | left; by simplify_eq].
  destruct (AGE_PLATFORM_PROBABILITIES !! k) as [spec|] eqn:Hspec;
    [simpl in Hp | done].
  apply choices_elem in Hp as [Hp _]. by exists k, spec.
Qed.

Lemma tally_row_corrected row acc :
  corrected row →
  (∀ k l p, acc !! k = Some l → p ∈ l →
     ∃ spec, AGE_PLATFORM_PROBABILITIES !! k = Some spec ∧ p ∈ platforms spec) →
  ∃ acc', PlatformsReport.tally_row float_of_str row acc = Some acc' ∧
    ∀ k l p, acc' !! k = Some l → p ∈ l →
      ∃ spec, AGE_PLATFORM_PROBABILITIES !! k = Some spec ∧ p ∈ platforms spec.
Proof.
  intros Hrow Hacc. unfold PlatformsReport.tally_row.
  destruct (truthy (row_get row "age")) eqn:Ht; [|by exists acc].
  destruct (truthy (row_get row "social_platform_preference")) eqn:Hp;
    [simpl | by exists acc].
  apply truthy_true in Ht, Hp.
  destruct Hrow as [He | (a & Ha & Hgrp)]; [done|].
  unfold get_age_group. rewrite bool_decide_eq_false_2 by done.
  rewrite Ha; simpl.
  destruct Hgrp as [[_ He] | (k & spec & Hk & Hspec & Hin)]; [done|].
  rewrite Hk. destruct (truthy k); [|by exists acc].
  eexists; split; [done|].
  intros k' l p Hl Hpl.
  destruct (decide (k = k')) as [<-|Hne].
  - rewrite lookup_insert_eq in Hl. injection Hl as <-.
    apply elem_of_app in Hpl as [Hpl | Hpl].
    + destruct (acc !! k) as [l0|] eqn:E; [by eapply Hacc|].
      simpl in Hpl. by apply elem_of_nil in Hpl.
    + apply list_elem_of_singleton in Hpl as ->. by exists spec.
  - rewrite lookup_insert_ne in Hl by done. by eapply Hacc.
Qed.

End PlatformsMore.

(** X7: the platform pass leaves a row whose age is missing or empty
    exactly as it was, and handling such a row draws nothing from the
    generator. *)
Theorem platform_pass_skips_missing_age {gen : Type} `{!PRNG gen}
    (float_of_str : string → option Q) (rows out : list Row) (g g' : gen)
    (i : nat) (row : Row) :
  Platforms.correct_csv_platforms float_of_str rows g = Some (out, g') →
  rows !! i = Some row →
  row_get row "age" = "" →
  out !! i = Some row ∧
  ∀ g0 : gen, Platforms.correct_row float_of_str row g0 = Some (row, g0).
Proof.
  intros Hpass Hrow He.
  assert (Hskip : ∀ g0 : gen,
            Platforms.correct_row float_of_str row g0 = Some (row, g0)).
  { intros g0. unfold Platforms.correct_row. by rewrite He. }
  split; [|done].
  destruct (for_each_lookup _ _ _ _ _ _ _ Hpass Hrow) as (b & gi & gi' & Hb & Hf).
  rewrite Hskip in Hf. by simplify_eq.
Qed.

Lemma platform_pass_skips_missing_age_witness :
  ∃ row, Samples.platform_rows !! 2 = Some row ∧
    row !! "social_platform_preference" = Some "Twitter" ∧
    Samples.platform_out.1 !! 2 = Some row.
Proof.
  exists (default ∅ (Samples.platform_rows !! 2)).
  split; [reflexivity|]. split; [reflexivity|].
  apply (platform_pass_skips_missing_age Builtins.float_of_str
           Samples.platform_rows Samples.platform_out.1 Samples.seed
           Samples.platform_out.2 2 _ platform_run); reflexivity.
Defined.

(** X8: a row whose age lies in a bucket of the platform pass gets a
    platform of that bucket's list (a teen never gets Telegram, an adult
    never TikTok); nothing else of the row changes. *)
Theorem platform_pass_draws_from_bucket {gen : Type} `{!PRNG gen}
    (float_of_str : string → option Q) (rows out : list Row) (g g' : gen)
    (i : nat) (row : Row) (a : Q) (k : string) :
  Platforms.correct_csv_platforms float_of_str rows g = Some (out, g') →
  rows !! i = Some row →
  row_get row "age" ≠ "" →
  float_of_str (row_get row "age") = Some a →
  Platforms.age_group_of a = Some k →
  ∃ spec p, Platforms.AGE_PLATFORM_PROBABILITIES !! k = Some spec ∧
    p ∈ Platforms.platforms spec ∧
    out !! i = Some (<["social_platform_preference" := p]> row).
Proof.
  intros Hpass Hrow Hne Ha Hk.
  destruct (for_each_lookup _ _ _ _ _ _ _ Hpass Hrow) as (b & gi & gi' & Hb & Hf).
  apply correct_row_inv in Hf as [(_ & _ & He) | (p & -> & Hp)]; [done|].
  destruct (assign_platform_by_age_bucket float_of_str _ a k gi Hne Ha Hk)
    as (spec & Hspec & Heq).
  rewrite Heq in Hp. apply choices_elem in Hp as [Hp _].
  by exists spec, p.
Qed.

Lemma platform_pass_draws_from_bucket_witness :
  ∃ spec p,
    Platforms.AGE_PLATFORM_PROBABILITIES !! "young_adult" = Some spec ∧
    p ∈ Platforms.platforms spec ∧
    Samples.platform_out.1 !! 1
      = (λ row, <["social_platform_preference" := p]> row)
          <$> Samples.platform_rows !! 1.
Proof.
  apply (platform_pass_draws_from_bucket Builtins.float_of_str
           Samples.platform_rows Samples.platform_out.1 Samples.seed
           Samples.platform_out.2 1 _ 25 "young_adult" platform_run);
    (reflexivity || discriminate).
Defined.


(** X10: the report of [verify_distribution] on the rows written by the
    platform pass can be built, and every platform it lists under an age
    group belongs to the platforms configured for that group. *)
Theorem platform_report_lists_configured_labels {gen : Type} `{!PRNG gen}
    (float_of_str : string → option Q) (rows out : list Row) (g g' : gen) :
  Platforms.correct_csv_platforms float_of_str rows g = Some (out, g') →
  ∃ tallies, PlatformsReport.tally float_of_str out = Some tallies ∧
    ∀ k l p, tallies !! k = Some l → p ∈ l →
      ∃ spec, Platforms.AGE_PLATFORM_PROBABILITIES !! k = Some spec ∧
              p ∈ Platforms.platforms spec.
Proof.
  intros Hpass.
  assert (Hall : ∀ row', row' ∈ out → corrected float_of_str row').
  { intros row' Hin. apply list_elem_of_lookup in Hin as [i Hi].
    destruct (for_each_lookup_inv _ _ _ _ _ _ _ Hpass Hi)
      as (row & gi & gi' & _ & Hf).
    by eapply correct_row_corrected. }
  clear Hpass. unfold PlatformsReport.tally.
  assert (Hacc : ∀ k l p, (∅ : gmap string (list string)) !! k = Some l →
            p ∈ l →
            ∃ spec, Platforms.AGE_PLATFORM_PROBABILITIES !! k = Some spec ∧
                    p ∈ Platforms.platforms spec).
  { intros k l p Hl. by rewrite lookup_empty in Hl. }
  revert Hacc. generalize (∅ : gmap string (list string)).
  induction out as [|row' out IH]; intros acc Hacc; simpl.
  - by exists acc.
  - destruct (tally_row_corrected float_of_str row' acc) as (acc' & -> & Hacc');
      [apply Hall; by left | done |]. simpl.
    apply IH; [|done]. intros r Hr. apply Hall. by right.
Qed.

Lemma platform_report_lists_configured_labels_witness :
  ∃ tallies,
    PlatformsReport.tally Builtins.float_of_str Samples.platform_out.1
      = Some tallies ∧
    ∀ k l p, tallies !! k = Some l → p ∈ l →
      ∃ spec, Platforms.AGE_PLATFORM_PROBABILITIES !! k = Some spec ∧
              p ∈ Platforms.platforms spec.
Proof.
  exact (platform_report_lists_configured_labels Builtins.float_of_str
           Samples.platform_rows Samples.platform_out.1 Samples.seed
           Samples.platform_out.2 platform_run).
Defined.

(** * Further properties of the productivity pass *)




Section ProductivityMore.
Context {gen : Type} `{!PRNG gen}.
Variable float_of_str : string → option Q.
Variable str_of_float : Q → string.

Import Productivity.

Lemma age_group_of_config a k :
  age_group_of a = Some k → is_Some (gap_config_of k) ∧ truthy k = true.
Proof.
  unfold age_group_of, AGE_GROUP_GAPS. cbn [List.find].
  repeat (case_match; [intros [= <-]; split; [by eexists | done]|]). done.
Qed.




End ProductivityMore.



Section ProductivityErrors.
Context {gen : Type} `{!PRNG gen}.
Variable float_of_str : string → option Q.
Variable str_of_float : Q → string.

Import Productivity.


Lemma truthy_false (s : string) : truthy s = false ↔ s = "".
Proof. unfold truthy. by rewrite negb_false_iff, bool_decide_eq_true. Qed.




Lemma recalibrate_row_missing_actual means row
    (st : gmap string (list Q) * gen) a k :
  row_get row "age" ≠ "" →
  float_of_str (row_get row "age") = Some a →
  age_group_of a = Some k →
  row_get row "actual_productivity_score" = "" →
  match means !! k with
  | None =>
      recalibrate_row float_of_str str_of_float means row st = Some (row, st)
  | Some mu =>
      ∃ cfg gap st', gap_config_of k = Some cfg ∧
        (gap_min cfg <= gap <= gap_max cfg)%Q ∧
        recalibrate_row float_of_str str_of_float means row st
          = Some (<["perceived_productivity_score" :=
                      str_of_float (new_perceived mu gap)]>
                    (<["actual_productivity_score" := str_of_float mu]> row),
                  st')
  end.
Proof.
  intros Hage Ha Hk Hact. unfold recalibrate_row. destruct st as [gaps g].
  apply truthy_true in Hage as Ht. rewrite Ht. simpl.
  unfold get_age_group. rewrite bool_decide_eq_false_2 by done.
  rewrite Ha; simpl. rewrite Hk.
  apply truthy_false in Hact as Hf. rewrite Hf. simpl.
  destruct (means !! k) as [mu|]; [|done].
  destruct (age_group_of_config a k Hk) as [[cfg Hcfg] _].
  rewrite Hcfg. simpl.
  pose proof (uniform_range (gap_min cfg) (gap_max cfg) g
                (gap_config_of_ordered _ _ Hcfg)) as Hr.
  destruct (uniform (gap_min cfg) (gap_max cfg) g) as [gap g1].
  by eexists cfg, gap, _.
Qed.

End ProductivityErrors.

(** X12: a record of a configured age group whose actual score is missing
    is left unchanged when its group has no mean ("can't impute, skip");
    otherwise its actual score becomes [str] of the group mean and its
    perceived score [str] of the clamped sum of that mean and a gap drawn
    within the group's gap range. *)
Theorem missing_actual_is_imputed_or_skipped {gen : Type} `{!PRNG gen}
    (float_of_str : string → option Q) (str_of_float : Q → string)
    (rows out : list Row) (g g' : gen) gaps (means : gmap string Q)
    (i : nat) (row : Row) (a : Q) (k : string) :
  Productivity.recalibrate_productivity_scores float_of_str str_of_float
    rows g = Some (out, gaps, g') →
  Productivity.calculate_age_group_means float_of_str rows = Some means →
  rows !! i = Some row →
  row_get row "age" ≠ "" →
  float_of_str (row_get row "age") = Some a →
  Productivity.age_group_of a = Some k →
  row_get row "actual_productivity_score" = "" →
  match means !! k with
  | None => out !! i = Some row
  | Some mu =>
      ∃ cfg gap, Productivity.gap_config_of k = Some cfg ∧
        (Productivity.gap_min cfg <= gap <= Productivity.gap_max cfg)%Q ∧
        out !! i
          = Some (<["perceived_productivity_score" :=
                      str_of_float (Productivity.new_perceived mu gap)]>
                    (<["actual_productivity_score" := str_of_float mu]> row))
  end.
Proof.
  intros Hpass Hmeans Hrow Hage Ha Hk Hact.
  apply recalibrate_pass_inv in Hpass as (means' & Hmeans' & Hfor).
  rewrite Hmeans in Hmeans'. injection Hmeans' as <-.
  destruct (for_each_lookup _ _ _ _ _ _ _ Hfor Hrow) as (b & gi & gi' & Hb & Hf).
  pose proof (recalibrate_row_missing_actual float_of_str str_of_float
                means row gi a k Hage Ha Hk Hact) as Hm.
  destruct (means !! k) as [mu|].
  - destruct Hm as (cfg & gap & st' & Hcfg & Hr & Heq).
    rewrite Heq in Hf. exists cfg, gap. by simplify_eq.
  - rewrite Hm in Hf. by simplify_eq.
Qed.

Lemma missing_actual_is_imputed_or_skipped_witness :
  ∃ cfg gap,
    Productivity.gap_config_of "middle_aged" = Some cfg ∧
    (Productivity.gap_min cfg <= gap <= Productivity.gap_max cfg)%Q ∧
    Samples.productivity_out.1.1 !! 2
      = (λ row, <["perceived_productivity_score" :=
                    Builtins.str_of_float (Productivity.new_perceived 6 gap)]>
                  (<["actual_productivity_score" := Builtins.str_of_float 6]>
                     row)) <$> Samples.productivity_rows !! 2.
Proof.
  exact (missing_actual_is_imputed_or_skipped Builtins.float_of_str
           Builtins.str_of_float Samples.productivity_rows
           Samples.productivity_out.1.1 Samples.seed Samples.productivity_out.2
           Samples.productivity_out.1.2 Samples.productivity_means 2
           (default ∅ (Samples.productivity_rows !! 2)) 45 "middle_aged"
           productivity_run productivity_means_run eq_refl
           ltac:(discriminate) eq_refl eq_refl eq_refl).
Defined.


(** * Further properties of the teen pass *)

Section ChoiceSize.
Context {gen : Type} `{!PRNG gen}.

Lemma randint_n_spec (n : Z) (size : nat) : ∀ g : gen,
  (0 < n)%Z →
  length (randint_n n size g).1 = size ∧
  Forall (λ i, (0 <= i < n)%Z) (randint_n n size g).1.
Proof.
  induction size as [|size IH]; intros g Hn; simpl; [by split|].
  pose proof (randint_range n g Hn) as Hr.
  destruct (randint n g) as [i g1]. specialize (IH g1 Hn).
  destruct (randint_n n size g1) as [rest g2]. simpl in *.
  destruct IH as [Hlen Hall]. split; [by f_equal | by constructor].
Qed.

Lemma np_choice_size_inv {A} (a : list A) size (g : gen) xs g' :
  0 < length a →
  np_choice_size a size g = Some (xs, g') →
  length xs = size ∧ Forall (λ x, x ∈ a) xs.
Proof.
  intros Ha. unfold np_choice_size.
  destruct ((length a =? 0) && negb (size =? 0)); [done|].
  pose proof (randint_n_spec (Z.of_nat (length a)) size g ltac:(lia))
    as [Hlen _].
  destruct (randint_n (Z.of_nat (length a)) size g) as [idx g1]. simpl in *.
  destruct (mapM (λ i, a !! Z.to_nat i) idx) as [ys|] eqn:E; [|done].
  intros [= -> ->]. apply mapM_Some_1 in E.
  split; [by rewrite <- (Forall2_length _ _ _ E)|].
  clear Hlen. induction E as [|i x idx xs Hx _ IH]; constructor; [|done].
  by eapply list_elem_of_lookup_2.
Qed.

Lemma np_choice_size_Some {A} (a : list A) size (g : gen) :
  0 < length a → is_Some (np_choice_size a size g).
Proof.
  intros Ha. unfold np_choice_size.
  replace (length a =? 0) with false by (symmetry; apply Nat.eqb_neq; lia).
  simpl.
  pose proof (randint_n_spec (Z.of_nat (length a)) size g ltac:(lia))
    as [_ Hall].
  destruct (randint_n (Z.of_nat (length a)) size g) as [idx g1]. simpl in *.
  destruct (mapM_is_Some_2 (λ i, a !! Z.to_nat i) idx) as [xs ->];
    [|by eexists].
  eapply Forall_impl; [exact Hall|]. intros i Hi. cbv beta in Hi. simpl.
  apply lookup_lt_is_Some_2. lia.
Qed.

End ChoiceSize.

Lemma assign_masked_selected mask : ∀ col new i,
  length new = mask_sum mask → length col = length mask →
  mask !! i = Some true →
  ∃ v, v ∈ new ∧ assign_masked mask col new !! i = Some v.
Proof.
  induction mask as [|b mask IH]; intros col new i Hnew Hcol Hi; [done|].
  destruct col as [|x col]; [done|]. simpl in Hnew, Hcol.
  destruct b.
  - destruct new as [|v new]; [done|]. simpl in Hnew.
    destruct i as [|i]; simpl.
    + exists v. split; [by left | done].
    + destruct (IH col new i) as (w & Hw & Hl); [lia | lia | done |].
      exists w. split; [by right | done].
  - destruct i as [|i]; [done|]. simpl.
    apply IH; [lia | lia | done].
Qed.

Lemma for_state_Some {S A : Type} (body : A → S → option S) (I : S → Prop)
    (l : list A) :
  (∀ a s, a ∈ l → I s → ∃ s', body a s = Some s' ∧ I s') →
  ∀ s, I s → ∃ s', for_state body l s = Some s' ∧ I s'.
Proof.
  induction l as [|a l IH]; intros Hbody s Hs; simpl; [by exists s|].
  destruct (Hbody a s) as (s1 & -> & Hs1); [by left | done |]. simpl.
  apply IH; [|done]. intros a' s' Ha'. apply Hbody. by right.
Qed.

Section TeenMore.
Context {gen : Type} `{!PRNG gen}.
Variable float_of_str : string → option Q.

Import Teen.

Lemma expand_teen_ages_draws df (g : gen) df1 g1 :
  expand_teen_ages df g = Some (df1, g1) →
  ∃ ages new, df !! "age" = Some ages ∧
    length new = mask_sum (isin original_teen_ages <$> ages) ∧
    Forall (λ v, v ∈ VNum <$> expanded_ages) new ∧
    df1 = <["age" := assign_masked (isin original_teen_ages <$> ages) ages new]> df.
Proof.
  unfold expand_teen_ages. intros H.
  destruct (df !! "age") as [ages|]; [simpl in H | done].
  destruct (np_choice_size _ _ g) as [[new g2]|] eqn:E; simplify_eq/=.
  apply np_choice_size_inv in E as [Hlen Hall]; [|simpl; lia].
  by exists ages, new.
Qed.

Lemma expand_teen_ages_Some df (g : gen) :
  is_Some (df !! "age") → is_Some (expand_teen_ages df g).
Proof.
  intros [ages Hages]. unfold expand_teen_ages. rewrite Hages.
  cbn [mbind option_bind].
  destruct (np_choice_size_Some (VNum <$> expanded_ages)
              (mask_sum (isin original_teen_ages <$> ages)) g)
    as [[new g1] ->]; [simpl; lia | by eexists].
Qed.

Lemma teen_spec_valid grp spec :
  AGE_PLATFORM_PROBABILITIES !! grp = Some spec →
  np_valid (platforms spec) (probabilities spec) = true.
Proof.
  intros Hspec. apply elem_of_list_to_map_2, list_elem_of_In in Hspec.
  simpl in Hspec.
  repeat (destruct Hspec as [[= <- <-] | Hspec]; [reflexivity|]). done.
Qed.

Lemma teen_group_has_time_ranges q grp :
  teen_age_group_of q = Some grp →
  is_Some (SOCIAL_MEDIA_TIME_RANGES !! grp).
Proof.
  unfold teen_age_group_of.
  repeat (case_match; [intros [= <-]; by eexists|]). done.
Qed.

Lemma update_platform_Some ages idx df (g : gen) :
  df !! "age" = Some ages →
  idx ∈ index_where (isin expanded_ages <$> ages) →
  ∃ df' g', update_platform float_of_str idx (df, g) = Some (df', g') ∧
    df' !! "age" = Some ages.
Proof.
  intros Hages Hidx.
  apply elem_of_index_where, isin_mask_lookup in Hidx as (v & Hv & Hin).
  destruct v as [q| |]; [|done..].
  destruct (isin_expanded_group q Hin) as (grp & spec & Hgrp & Hspec).
  unfold update_platform, get_cell. rewrite Hages. simpl. rewrite Hv. simpl.
  unfold assign_platform_by_teen_age, get_teen_age_group. simpl.
  rewrite Hgrp, Hspec. simpl.
  destruct (np_choice_Some (platforms spec) (probabilities spec) g
              (teen_spec_valid _ _ Hspec)) as [[s g1] ->]. simpl.
  eexists _, _. split; [done|].
  by rewrite set_cell_lookup_ne.
Qed.

Lemma update_time_Some ages idx df (g : gen) :
  df !! "age" = Some ages →
  idx ∈ index_where (isin expanded_ages <$> ages) →
  is_Some (get_cell df "social_platform_preference" idx) →
  ∃ df' g', update_time float_of_str idx (df, g) = Some (df', g') ∧
    (∀ c, c ≠ "daily_social_media_time" → df' !! c = df !! c).
Proof.
  intros Hages Hidx [pl Hpl].
  apply elem_of_index_where, isin_mask_lookup in Hidx as (v & Hv & Hin).
  destruct v as [q| |]; [|done..].
  destruct (isin_expanded_group q Hin) as (grp & spec & Hgrp & Hspec).
  unfold update_time. rewrite Hpl.
  unfold get_cell. rewrite Hages. simpl. rewrite Hv. simpl.
  unfold assign_social_media_time, get_teen_age_group. simpl.
  rewrite Hgrp.
  destruct (isna pl || is_empty_str pl); simpl; [by eexists _, _|].
  unfold time_range.
  destruct (teen_group_has_time_ranges q grp Hgrp) as [tr ->]. simpl.
  destruct (match pl with
            | VStr p => default (default_time_range grp) (tr !! p)
            | _ => default_time_range grp
            end) as [lo hi].
  destruct (uniform lo hi g) as [t g1]. eexists _, _. split; [done|].
  intros c Hc. by apply set_cell_lookup_ne.
Qed.

Lemma update_teen_Some df (g : gen) :
  frame_ok df → is_Some (df !! "age") →
  is_Some (update_teen_platforms_and_time float_of_str df g).
Proof.
  intros Hok [ages Hages]. unfold update_teen_platforms_and_time.
  rewrite Hages. simpl.
  set (idxs := index_where (isin expanded_ages <$> ages)).
  destruct (for_state_Some (update_platform float_of_str)
              (λ st : DataFrame * gen, st.1 !! "age" = Some ages) idxs)
    with (df, g) as ([df1 g1] & Hloop1 & Hages1); [|done|].
  { intros idx [d g0] Hidx Hd. simpl in Hd.
    destruct (update_platform_Some ages idx d g0 Hd Hidx)
      as (d' & g0' & -> & Hd'). by exists (d', g0'). }
  rewrite Hloop1. simpl in *.
  destruct (cell_loop "social_platform_preference" _ _
              (update_platform_spec float_of_str)
              (platform_post_stable float_of_str) _ _ _ _ _
              (NoDup_index_where _) Hloop1)
    as (Hfr1 & _ & _ & _ & Hin1).
  destruct (for_state_Some (update_time float_of_str)
              (λ st : DataFrame * gen,
                 st.1 !! "age" = Some ages ∧
                 ∀ idx, idx ∈ idxs →
                   is_Some (get_cell st.1 "social_platform_preference" idx))
              idxs) with (df1, g1) as (st' & -> & _); [| |by eexists].
  - intros idx [d g0] Hidx [Hd Hspp]. simpl in Hd, Hspp.
    destruct (update_time_Some ages idx d g0 Hd Hidx (Hspp idx Hidx))
      as (d' & g0' & -> & Hfr).
    exists (d', g0'). split; [done|]. simpl. split.
    + by rewrite Hfr.
    + intros j Hj. rewrite (get_cell_congr d d') by (by apply Hfr).
      by apply Hspp.
  - simpl. split; [done|]. intros idx Hidx.
    destruct (Hin1 idx Hidx) as (w & (age & p & gi & gi' & Ha & _ & ->) & Hw).
    rewrite Hw; [by eexists|].
    rewrite length_column_or_nan by done. by eapply get_cell_lt.
Qed.

End TeenMore.

(** X14: [expand_teen_ages] replaces every age equal to 18 or 19 by one of
    the seven ages 13 to 19 and leaves every other age cell (other ages,
    missing ages) and every other column as it was. *)
Theorem expand_teen_ages_redistributes {gen : Type} `{!PRNG gen}
    (df df1 : DataFrame) (g g1 : gen) :
  Teen.expand_teen_ages df g = Some (df1, g1) →
  (∀ col, col ≠ "age" → df1 !! col = df !! col) ∧
  (∀ i v, get_cell df "age" i = Some v →
     if isin Teen.original_teen_ages v
     then ∃ q, get_cell df1 "age" i = Some (VNum q) ∧ q ∈ Teen.expanded_ages
     else get_cell df1 "age" i = Some v).
Proof.
  intros Hexp.
  destruct (expand_teen_ages_draws _ _ _ _ Hexp)
    as (ages & new & Hages & Hlen & Hall & ->).
  assert (Hnew : ∀ w, w ∈ new → ∃ q, w = VNum q ∧ q ∈ Teen.expanded_ages).
  { intros w Hw. rewrite Forall_forall in Hall.
    apply Hall, list_elem_of_fmap in Hw as (q & -> & Hq). by exists q. }
  clear Hall.
  split; [intros col Hcol; by rewrite lookup_insert_ne|].
  intros i v Hv. unfold get_cell in *.
  rewrite lookup_insert_eq. rewrite Hages in Hv. simpl in *.
  destruct (isin Teen.original_teen_ages v) eqn:Hin.
  - destruct (assign_masked_selected (isin Teen.original_teen_ages <$> ages)
                ages new i Hlen) as (w & Hw & ->).
    + by rewrite length_fmap.
    + apply isin_mask_lookup. by exists v.
    + destruct (Hnew w Hw) as (q & -> & Hq). by exists q.
  - rewrite assign_masked_unselected; [done|].
    intros Hm. apply isin_mask_lookup in Hm as (v' & Hv' & Ht). congruence.
Qed.

Lemma expand_teen_ages_redistributes_witness :
  (∃ q, get_cell Samples.expand_out.1 "age" 1 = Some (VNum q) ∧
        q ∈ Teen.expanded_ages) ∧
  get_cell Samples.expand_out.1 "age" 0 = Some (VNum 16) ∧
  get_cell Samples.expand_out.1 "age" 3 = Some VNaN.
Proof.
  destruct (expand_teen_ages_redistributes Samples.teen_frame
              Samples.expand_out.1 Samples.seed Samples.expand_out.2
              expand_run) as [_ Hage].
  split; [exact (Hage 1 (VNum 18) eq_refl)|].
  split; [exact (Hage 0 (VNum 16) eq_refl) | exact (Hage 3 VNaN eq_refl)].
Defined.

(** X15: the teen pass only touches the records whose age is exactly one
    of 13.0, ..., 19.0.  A record with a missing age, a fractional age
    such as 16.5 or an adult age keeps every cell, although
    [get_teen_age_group] would put 16.5 into the high-school group. *)
Theorem teen_pass_skips_unmasked_records {gen : Type} `{!PRNG gen}
    (float_of_str : string → option Q) (df df' : DataFrame) (g g' : gen)
    (i : nat) (v : value) (col : string) (c : list value) :
  Teen.main float_of_str df g = Some (df', g') →
  get_cell df "age" i = Some v →
  isin Teen.expanded_ages v = false →
  df !! col = Some c →
  get_cell df' col i = c !! i.
Proof.
  intros Hmain Hage Hsel Hc.
  apply teen_main_inv in Hmain as (df1 & g1 & Hexp & Hupd).
  assert (Hage1 : get_cell df1 "age" i = Some v).
  { rewrite (expand_teen_ages_unselected _ _ _ _ _ Hexp); [done|].
    intros v' Hv'. rewrite Hage in Hv'. injection Hv' as <-.
    destruct (isin Teen.original_teen_ages v) eqn:E; [|done].
    apply isin_original_expanded in E. congruence. }
  assert (Hsel1 : ∀ v', get_cell df1 "age" i = Some v' →
                        isin Teen.expanded_ages v' = false).
  { intros v' Hv'. rewrite Hage1 in Hv'. by injection Hv' as <-. }
  destruct (decide (col = "age")) as [->|Hne].
  - destruct (df1 !! "age") as [c1|] eqn:Hc1;
      [|unfold get_cell in Hage1; by rewrite Hc1 in Hage1].
    rewrite (update_teen_unselected float_of_str df1 g1 df' g' i "age" c1
               Hupd Hsel1 Hc1).
    unfold get_cell in Hage1, Hage. rewrite Hc1 in Hage1. rewrite Hc in Hage.
    simpl in *. congruence.
  - apply (update_teen_unselected float_of_str df1 g1 df' g' i col c
             Hupd Hsel1).
    apply expand_teen_ages_inv in Hexp as (ages & new & _ & ->).
    by rewrite lookup_insert_ne.
Qed.

Lemma teen_pass_skips_unmasked_records_witness :
  Teen.teen_age_group_of (33 # 2) = Some "high_school" ∧
  isin Teen.expanded_ages (VNum (33 # 2)) = false ∧
  get_cell Samples.teen_out.1 "social_platform_preference" 3
    = Some (VStr "Twitter").
Proof.
  split; [reflexivity|]. split; [reflexivity|].
  exact (teen_pass_skips_unmasked_records Builtins.float_of_str
           Samples.teen_frame Samples.teen_out.1 Samples.seed
           Samples.teen_out.2 3 VNaN "social_platform_preference"
           [VStr "Facebook"; VStr "Telegram"; VStr "Telegram"; VStr "Twitter"]
           teen_run eq_refl eq_refl eq_refl).
Defined.

(** X16: after the teen pass every record whose age is one of 13.0, ...,
    19.0 holds a platform from the list configured for its own age group;
    whatever the group, the platform is one of TikTok, Instagram,
    Snapchat, Twitter, Facebook. *)
Theorem teen_pass_platform_from_own_group {gen : Type} `{!PRNG gen}
    (float_of_str : string → option Q) (df df' : DataFrame) (g g' : gen)
    (i : nat) (q : Q) :
  frame_ok df →
  Teen.main float_of_str df g = Some (df', g') →
  get_cell df' "age" i = Some (VNum q) →
  isin Teen.expanded_ages (VNum q) = true →
  ∃ grp spec s,
    Teen.teen_age_group_of q = Some grp ∧
    Teen.AGE_PLATFORM_PROBABILITIES !! grp = Some spec ∧
    get_cell df' "social_platform_preference" i = Some (VStr s) ∧
    s ∈ Teen.platforms spec ∧
    s ∈ ["TikTok"; "Instagram"; "Snapchat"; "Twitter"; "Facebook"].
Proof.
  intros Hok Hmain Hage Hin.
  apply teen_main_inv in Hmain as (df1 & g1 & Hexp & Hupd).
  assert (Hage1 : get_cell df1 "age" i = Some (VNum q)).
  { rewrite <- Hage. symmetry. apply get_cell_congr.
    by apply (update_teen_frame float_of_str df1 g1 df' g'). }
  destruct (update_teen_selected float_of_str df1 g1 df' g' i q
              (expand_teen_ages_frame_ok _ _ _ _ Hok Hexp) Hupd Hage1 Hin)
    as (grp & spec & s & lo & hi & t & Hgrp & Hspec & Hs & Hel & _).
  exists grp, spec, s. repeat split; try done.
  by apply (platform_labels grp spec s Hspec Hel).
Qed.

Lemma teen_pass_platform_from_own_group_witness :
  ∃ grp spec s,
    Teen.teen_age_group_of 13 = Some grp ∧
    Teen.AGE_PLATFORM_PROBABILITIES !! grp = Some spec ∧
    get_cell Samples.teen_out.1 "social_platform_preference" 1
      = Some (VStr s) ∧
    s ∈ Teen.platforms spec ∧
    s ∈ ["TikTok"; "Instagram"; "Snapchat"; "Twitter"; "Facebook"].
Proof.
  apply (teen_pass_platform_from_own_group Builtins.float_of_str
           Samples.teen_frame Samples.teen_out.1 Samples.seed
           Samples.teen_out.2 1 13.0%Q).
  - apply frame_okb_ok. vm_compute. reflexivity.
  - exact teen_run.
  - vm_compute. reflexivity.
  - reflexivity.
Defined.

(** X17: on a frame that has an age column and one cell per row in every
    column the teen pass never raises: the index draws of
    [expand_teen_ages] stay inside the list of ages, the weights of the
    three groups are accepted by the sampler, and every cell the loops
    read exists. *)
Theorem teen_pass_never_raises {gen : Type} `{!PRNG gen}
    (float_of_str : string → option Q) (df : DataFrame) (g : gen) :
  frame_ok df → is_Some (df !! "age") →
  is_Some (Teen.main float_of_str df g).
Proof.
  intros Hok Hage. unfold Teen.main.
  destruct (expand_teen_ages_Some df g Hage) as [[df1 g1] Hexp].
  rewrite Hexp. simpl.
  apply update_teen_Some.
  - by eapply expand_teen_ages_frame_ok.
  - apply expand_teen_ages_inv in Hexp as (ages & new & _ & ->).
    rewrite lookup_insert_eq. by eexists.
Qed.

Lemma teen_pass_never_raises_witness :
  is_Some (Teen.main Builtins.float_of_str Samples.teen_frame Samples.seed).
Proof.
  apply teen_pass_never_raises.
  - apply frame_okb_ok. vm_compute. reflexivity.
  - vm_compute. by eexists.
Defined.

(** X18: [map_job_type_to_standard] sends the four obsolete labels to
    Other, keeps every other label, never returns an obsolete label and is
    idempotent. *)
Theorem map_job_type_to_standard_normalises (job_type : string) :
  ((job_type ∈ JobTypes.obsolete_jobs) →
     JobTypes.map_job_type_to_standard job_type = "Other") ∧
  ((job_type ∉ JobTypes.obsolete_jobs) →
     JobTypes.map_job_type_to_standard job_type = job_type) ∧
  (JobTypes.map_job_type_to_standard job_type ∉ JobTypes.obsolete_jobs) ∧
  JobTypes.map_job_type_to_standard
    (JobTypes.map_job_type_to_standard job_type)
    = JobTypes.map_job_type_to_standard job_type.
Proof.
  assert (Hother : "Other" ∉ JobTypes.obsolete_jobs).
  { unfold JobTypes.obsolete_jobs. rewrite !elem_of_cons, elem_of_nil.
    intros [?|[?|[?|[?|[]]]]]; discriminate. }
  unfold JobTypes.map_job_type_to_standard.
  destruct (bool_decide (job_type ∈ JobTypes.obsolete_jobs)) eqn:E.
  - apply bool_decide_eq_true in E.
    split; [done|]. split; [by intros Hn|]. split; [done|].
    by rewrite bool_decide_eq_false_2.
  - apply bool_decide_eq_false in E.
    split; [by intros Hn|]. split; [done|]. split; [done|].
    by rewrite bool_decide_eq_false_2.
Qed.

(** X19: the platform pass draws exactly once from the generator for every
    row whose age is non-empty and lies in a bucket, and not at all for
    the other rows (empty age, age below 18): the generator it leaves
    behind is the one reached after as many draws as there are bucketed
    rows. *)
Theorem platform_pass_draws_once_per_bucketed_row {gen : Type} `{!PRNG gen}
    (float_of_str : string → option Q) (rows out : list Row) (g g' : gen) :
  Platforms.correct_csv_platforms float_of_str rows g = Some (out, g') →
  g' = advance
         (length (filter
            (λ row, row_get row "age" ≠ "" ∧
                    is_Some (float_of_str (row_get row "age")
                             ≫= Platforms.age_group_of)) rows)) g.
Proof.
  unfold Platforms.correct_csv_platforms.
  revert g out. induction rows as [|row rows IH]; intros g out Hpass.
  - by simplify_eq/=.
  - apply for_each_cons_inv in Hpass as (b & g1 & bs & Hf & Hpass & _).
    rewrite (IH _ _ Hpass). rewrite filter_cons.
    apply correct_row_inv in Hf as [(_ & -> & He) | (p & _ & Hp)].
    + rewrite decide_False; [done|]. by intros [Hne _].
    + unfold Platforms.assign_platform_by_age, Platforms.get_age_group in Hp.
      destruct (bool_decide (row_get row "age" = "")) eqn:Hb.
      * apply bool_decide_eq_true in Hb. injection Hp as _ <-.
        rewrite decide_False; [done|]. by intros [Hne _].
      * apply bool_decide_eq_false in Hb.
        destruct (float_of_str (row_get row "age")) as [a|] eqn:Ha;
          [simpl in Hp | done].
        destruct (Platforms.age_group_of a) as [k|] eqn:Hk.
        -- destruct (Platforms.AGE_PLATFORM_PROBABILITIES !! k) as [spec|];
             [simpl in Hp | done].
           apply choices_elem in Hp as [_ ->].
           rewrite decide_True
             by (split; [done | simpl; rewrite Hk; by eexists]).
           simpl length. unfold advance. by rewrite Nat.iter_succ_r.
        -- injection Hp as _ <-.
           rewrite decide_False; [done|]. intros [_ [x Hx]].
           simpl in Hx. congruence.
Qed.

Lemma platform_pass_draws_once_per_bucketed_row_witness :
  Samples.platform_out.2 = advance 1 Samples.seed.
Proof.
  exact (platform_pass_draws_once_per_bucketed_row Builtins.float_of_str
           Samples.platform_rows Samples.platform_out.1 Samples.seed
           Samples.platform_out.2 platform_run).
Defined.
